(** * A shallow embedding of the Universal Machine interpreter (src/main.c)

    The interpreter is a C program.  We model:
    - machine words ([uint32_t], [uint64_t]) as [Z] with the wrap-around
      written out ([u32], [u64]);
    - the C heap as a finite map from addresses to the word arrays that
      [malloc]/[calloc] returned (only the cells the program initialises are
      kept: reading past them is undefined behaviour in the model);
    - the spine [UM->segments] as a finite map from segment identifiers to
      addresses, so aliasing between identifiers is visible;
    - the free-identifier stack [UM->unmapped_IDs] as a list whose head is
      the top of the stack (the C array read from index [num_IDs - 1] down);
    - undefined behaviour and [abort] (failed [assert], uncaught exception)
      as the two faults of a small error monad;
    - standard input as a list of bytes, and standard output and standard
      error as one trace of events in the order they are written. *)

From Stdlib Require Import ZArith Lia.
From stdpp Require Import base gmap list strings.

Open Scope Z_scope.

(** ** Words *)

Definition u32 (x : Z) : Z := x mod 2 ^ 32.
Definition u64 (x : Z) : Z := x mod 2 ^ 64.

(** The C value [EOF] returned by [fgetc]/[getchar]. *)
Definition EOF : Z := -1.

(** ** Faults and the result monad *)

Inductive fault :=
  | Undefined_behaviour   (* the C abstract machine gives the run no meaning *)
  | Abort.                (* a failed assert or an uncaught exception: abort() *)

Inductive result (A : Type) : Type :=
  | Ok (a : A)
  | Fault (f : fault).
Arguments Ok {A} a.
Arguments Fault {A} f.

Definition bind {A B} (m : result A) (k : A -> result B) : result B :=
  match m with
  | Ok a => k a
  | Fault f => Fault f
  end.

Notation "'let*' x ':=' m 'in' k" := (bind m (fun x => k))
  (at level 200, x name, m at level 100, k at level 200).

(** ** Bitpack (lines 341-392) *)

Definition shl (word : Z) (bits : Z) : Z :=
  if bits =? 64 then 0 else u64 (Z.shiftl word bits).

Definition shr (word : Z) (bits : Z) : Z :=
  if bits =? 64 then 0 else Z.shiftr word bits.

Definition Bitpack_fitsu (n : Z) (width : Z) : bool :=
  shr n width =? 0.

(** [value] is the [uint64_t] parameter: an [int] argument is converted
    modulo [2^64] at the call, so [EOF] arrives as [2^64 - 1].  A failed
    [Bitpack_fitsu] raises [Bitpack_Overflow], which nobody catches. *)
Definition Bitpack_newu (word width lsb value : Z) : result Z :=
  if negb (width <=? 64) then Fault Abort else
  let hi := lsb + width in
  if negb (hi <=? 64) then Fault Abort else
  if negb (Bitpack_fitsu value width) then Fault Abort else
  Ok (Z.lor (Z.lor (shl (shr word hi) hi)
                   (shr (shl word (64 - lsb)) (64 - lsb)))
            (u64 (Z.shiftl value lsb))).

(** Every call site passes constant [width] and [lsb] with
    [lsb + width <= 32], so the asserts of [Bitpack_getu] always hold. *)
Definition Bitpack_getu (word width lsb : Z) : Z :=
  let hi := lsb + width in
  shr (shl word (64 - hi)) (64 - width).

(** ** Machine state *)

Inductive event :=
  | Stdout (byte : Z)
  | Stderr (s : string).

(** The fields of [struct universal_machine] (lines 20-34), followed by the
    C heap and the process's byte streams.  [num_IDs] is the length of
    [unmapped_IDs]. *)
Record machine := mkMachine {
  registers : list Z;
  program_counter : Z;
  unmapped_IDs : list Z;
  ID_arr_size : Z;
  segments : gmap Z Z;
  num_segments : Z;
  segment_arr_size : Z;
  heap : gmap Z (list Z);
  next_addr : Z;
  stdin_bytes : list Z;
  trace : list event
}.

Definition set_registers (m : machine) (r : list Z) : machine :=
  mkMachine r (program_counter m) (unmapped_IDs m) (ID_arr_size m)
    (segments m) (num_segments m) (segment_arr_size m) (heap m) (next_addr m)
    (stdin_bytes m) (trace m).

Definition set_pc (m : machine) (pc : Z) : machine :=
  mkMachine (registers m) pc (unmapped_IDs m) (ID_arr_size m)
    (segments m) (num_segments m) (segment_arr_size m) (heap m) (next_addr m)
    (stdin_bytes m) (trace m).

Definition set_pool (m : machine) (ids : list Z) (size : Z) : machine :=
  mkMachine (registers m) (program_counter m) ids size
    (segments m) (num_segments m) (segment_arr_size m) (heap m) (next_addr m)
    (stdin_bytes m) (trace m).

Definition set_spine (m : machine) (s : gmap Z Z) (n size : Z) : machine :=
  mkMachine (registers m) (program_counter m) (unmapped_IDs m) (ID_arr_size m)
    s n size (heap m) (next_addr m) (stdin_bytes m) (trace m).

Definition set_heap (m : machine) (h : gmap Z (list Z)) (next : Z) : machine :=
  mkMachine (registers m) (program_counter m) (unmapped_IDs m) (ID_arr_size m)
    (segments m) (num_segments m) (segment_arr_size m) h next
    (stdin_bytes m) (trace m).

Definition set_io (m : machine) (inp : list Z) (tr : list event) : machine :=
  mkMachine (registers m) (program_counter m) (unmapped_IDs m) (ID_arr_size m)
    (segments m) (num_segments m) (segment_arr_size m) (heap m) (next_addr m)
    inp tr.

(** ** C heap and arrays *)

(** [malloc]/[calloc]: a fresh address holding [cells].  Allocation failure
    is not modelled (glibc returns a unique pointer even for size 0). *)
Definition malloc (m : machine) (cells : list Z) : Z * machine :=
  (next_addr m, set_heap m (<[next_addr m := cells]> (heap m)) (next_addr m + 1)).

Definition free (m : machine) (p : Z) : result machine :=
  match heap m !! p with
  | Some _ => Ok (set_heap m (delete p (heap m)) (next_addr m))
  | None => Fault Undefined_behaviour
  end.

Definition heap_get (m : machine) (p : Z) : result (list Z) :=
  match heap m !! p with
  | Some a => Ok a
  | None => Fault Undefined_behaviour
  end.

Definition arr_get (a : list Z) (i : Z) : result Z :=
  if 0 <=? i then
    match a !! Z.to_nat i with
    | Some v => Ok v
    | None => Fault Undefined_behaviour
    end
  else Fault Undefined_behaviour.

Definition arr_set (a : list Z) (i v : Z) : result (list Z) :=
  if (0 <=? i) && (i <? Z.of_nat (length a)) then Ok (<[Z.to_nat i := v]> a)
  else Fault Undefined_behaviour.

(** [UM->segments[id]]: a slot never written holds no pointer. *)
Definition spine_get (m : machine) (id : Z) : result Z :=
  match segments m !! id with
  | Some p => Ok p
  | None => Fault Undefined_behaviour
  end.

(** [UM->segments[id] = p], within the [segment_arr_size] slots allocated. *)
Definition spine_set (m : machine) (id p : Z) : result machine :=
  if (0 <=? id) && (id <? segment_arr_size m)
  then Ok (set_spine m (<[id := p]> (segments m)) (num_segments m) (segment_arr_size m))
  else Fault Undefined_behaviour.

Definition reg (m : machine) (r : Z) : Z := nth (Z.to_nat r) (registers m) 0.

Definition set_reg (m : machine) (r v : Z) : machine :=
  set_registers m (<[Z.to_nat r := v]> (registers m)).

(** ** Universal Machine module (lines 36-139) *)

Definition new_UM (program_instructions : Z) (h : gmap Z (list Z)) (next : Z)
  : machine :=
  {| registers := repeat 0 8;
     program_counter := 0;
     unmapped_IDs := [];
     ID_arr_size := 1;
     segments := {[0 := program_instructions]};
     num_segments := 1;
     segment_arr_size := 1;
     heap := h;
     next_addr := next;
     stdin_bytes := [];
     trace := [] |}.

(** [realloc(p, 0)] frees [p] and returns [NULL] (glibc), and the [assert]
    that follows fails. *)
Definition grow_size (size : Z) : result Z :=
  let bigger_arr_size := u32 (size * 2) in
  if bigger_arr_size =? 0 then Fault Abort else Ok bigger_arr_size.

Definition map_segment (m : machine) (num_words : Z) : result (machine * Z) :=
  (* calloc(num_words + 1, sizeof(uint32_t)): the count is a uint32_t sum *)
  let '(new_segment, m1) := malloc m (repeat 0 (Z.to_nat (u32 (num_words + 1)))) in
  (* new_segment[0] = num_words *)
  let* a := heap_get m1 new_segment in
  let* a' := arr_set a 0 num_words in
  let m2 := set_heap m1 (<[new_segment := a']> (heap m1)) (next_addr m1) in
  match unmapped_IDs m2 with
  | [] =>
      let* m3 :=
        if num_segments m2 =? segment_arr_size m2 then
          let* bigger := grow_size (segment_arr_size m2) in
          Ok (set_spine m2 (segments m2) (num_segments m2) bigger)
        else Ok m2 in
      let* m4 := spine_set m3 (num_segments m3) new_segment in
      let n := u32 (num_segments m4 + 1) in
      Ok (set_spine m4 (segments m4) n (segment_arr_size m4), u32 (n - 1))
  | available_ID :: rest =>
      let m3 := set_pool m2 rest (ID_arr_size m2) in
      let* to_unmap := spine_get m3 available_ID in
      let* m4 := free m3 to_unmap in
      let* m5 := spine_set m4 available_ID new_segment in
      Ok (set_spine m5 (segments m5) (u32 (num_segments m5 + 1))
           (segment_arr_size m5), available_ID)
  end.

Definition unmap_segment (m : machine) (segment_ID : Z) : result machine :=
  let* m1 :=
    if Z.of_nat (length (unmapped_IDs m)) =? ID_arr_size m then
      let* bigger := grow_size (ID_arr_size m) in
      Ok (set_pool m (unmapped_IDs m) bigger)
    else Ok m in
  (* UM->unmapped_IDs[UM->num_IDs] = segment_ID *)
  if negb (Z.of_nat (length (unmapped_IDs m1)) <? ID_arr_size m1)
  then Fault Undefined_behaviour else
  let m2 := set_pool m1 (segment_ID :: unmapped_IDs m1) (ID_arr_size m1) in
  Ok (set_spine m2 (segments m2) (u32 (num_segments m2 - 1)) (segment_arr_size m2)).

(** ** Instruction set module (lines 149-329) *)

(** [UM->segments[segment_ID][offset + 1]], read and written. *)
Definition load_word (m : machine) (segment_ID offset : Z) : result Z :=
  let* p := spine_get m segment_ID in
  let* a := heap_get m p in
  arr_get a (u32 (offset + 1)).

Definition store_word (m : machine) (segment_ID offset v : Z) : result machine :=
  let* p := spine_get m segment_ID in
  let* a := heap_get m p in
  let* a' := arr_set a (u32 (offset + 1)) v in
  Ok (set_heap m (<[p := a']> (heap m)) (next_addr m)).

Definition conditional_move (m : machine) (A B C : Z) : machine :=
  if negb (reg m C =? 0) then set_reg m A (reg m B) else m.

Definition segmented_load (m : machine) (A B C : Z) : result machine :=
  let* v := load_word m (reg m B) (reg m C) in
  Ok (set_reg m A v).

Definition segmented_store (m : machine) (A B C : Z) : result machine :=
  store_word m (reg m A) (reg m B) (reg m C).

(** [mod_limit] is the [long] constant 4294967296; the sum and the product
    are already [uint32_t] values. *)
Definition addition (m : machine) (A B C : Z) : machine :=
  set_reg m A (u32 (reg m B + reg m C) mod 4294967296).

Definition multiplication (m : machine) (A B C : Z) : machine :=
  set_reg m A (u32 (reg m B * reg m C) mod 4294967296).

(** Unsigned division by zero is undefined behaviour in C. *)
Definition division (m : machine) (A B C : Z) : result machine :=
  if reg m C =? 0 then Fault Undefined_behaviour
  else Ok (set_reg m A ((reg m B / reg m C) mod 4294967296)).

Definition bitwise_nand (m : machine) (A B C : Z) : machine :=
  set_reg m A (u32 (Z.lnot (Z.land (reg m B) (reg m C)))).

Definition map (m : machine) (B C : Z) : result machine :=
  let* r := map_segment m (reg m C) in
  let '(m1, id) := r in
  Ok (set_reg m1 B id).

Definition unmap (m : machine) (C : Z) : result machine :=
  unmap_segment m (reg m C).

(** [putchar] writes its argument converted to [unsigned char]. *)
Definition output (m : machine) (C : Z) : machine :=
  set_io m (stdin_bytes m) (trace m ++ [Stdout (reg m C mod 256)]).

(** [getchar] returns a byte in 0..255 or [EOF]; [~0] is [0xFFFFFFFF]. *)
Definition input (m : machine) (C : Z) : machine :=
  match stdin_bytes m with
  | [] => set_reg m C (u32 (Z.lnot 0))
  | int_value :: rest => set_reg (set_io m rest (trace m)) C int_value
  end.

(** The copy loop [deep_copy[i] = target_segment[i]] for [i < true_size]. *)
Definition copy_words (target : list Z) (true_size : Z) : result (list Z) :=
  if true_size <=? Z.of_nat (length target)
  then Ok (firstn (Z.to_nat true_size) target)
  else Fault Undefined_behaviour.

Definition load_program (m : machine) (B : Z) : result machine :=
  let reg_B_value := reg m B in
  if reg_B_value =? 0 then Ok m else
  let* target_segment := spine_get m reg_B_value in
  let* target := heap_get m target_segment in
  let* num_instructions := arr_get target 0 in
  let true_size := u32 (num_instructions + 1) in
  let* copy := copy_words target true_size in
  let '(deep_copy, m1) := malloc m copy in
  let* old := spine_get m1 0 in
  let* m2 := free m1 old in
  spine_set m2 0 deep_copy.

Definition load_value (m : machine) (A value : Z) : machine :=
  set_reg m A value.

(** ** Program main module (lines 394-623) *)

(** [fgetc]: the next byte of the file, or [EOF] once it is exhausted. *)
Definition fgetc (fp : list Z) : Z * list Z :=
  match fp with
  | [] => (EOF, [])
  | b :: rest => (b, rest)
  end.

(** The inner loop [for (int i = 3; i >= 0; i--)], run [k] more times: the
    [uint64_t] result of [Bitpack_newu] is stored into the [uint32_t] word,
    and the [int] byte is passed as a [uint64_t]. *)
Fixpoint pack_loop (k : nat) (word byte : Z) (fp : list Z)
  : result (Z * Z * list Z) :=
  match k with
  | O => Ok (word, byte, fp)
  | S i =>
      let* w := Bitpack_newu word 8 (Z.of_nat i * 8) (u64 byte) in
      let '(byte', fp') := fgetc fp in
      pack_loop i (u32 w) byte' fp'
  end.

(** [segment_zero[num_elems + 1] = word] into a buffer of [segment_size]
    words, after the [realloc] when [num_elems + 1 == segment_size].  The
    list [cells] holds the initialised cells [1 .. num_elems]. *)
Definition append_word (cells : list Z) (segment_size num_elems word : Z)
  : result (list Z * Z) :=
  let idx := u32 (num_elems + 1) in
  let size := if idx =? segment_size then u32 (segment_size * 2) else segment_size in
  if idx <? size then Ok (cells ++ [word], size) else Fault Undefined_behaviour.

(** The outer [while (byte != EOF)] loop.  Each iteration reads four bytes
    or faults, so [S (length fp)] rounds of fuel always suffice. *)
Fixpoint read_loop (fuel : nat) (byte : Z) (fp : list Z) (cells : list Z)
    (segment_size num_elems : Z) : result (list Z * Z) :=
  match fuel with
  | O => Fault Undefined_behaviour
  | S fuel' =>
      if byte =? EOF then Ok (cells, num_elems) else
      let* r := pack_loop 4 0 byte fp in
      let '(word, byte', fp') := r in
      let* c := append_word cells segment_size num_elems word in
      let '(cells', size') := c in
      read_loop fuel' byte' fp' cells' size' (u32 (num_elems + 1))
  end.

(** The buffer is allocated at address 0 of an empty heap; its first cell is
    set to [num_elems] at the end. *)
Definition read_program_file (fp : list Z) : result machine :=
  let '(byte, fp') := fgetc fp in
  let* r := read_loop (S (length fp)) byte fp' [] 100 0 in
  let '(cells, num_elems) := r in
  Ok (new_UM 0 {[0 := num_elems :: cells]} 1).

(** One iteration of the [while (true)] loop of [run_program]. *)
Inductive outcome :=
  | Continue (m : machine)
  | Halted (m : machine).

Definition fetch (m : machine) : result Z :=
  let* p := spine_get m 0 in
  let* segment_zero := heap_get m p in
  arr_get segment_zero (u32 (program_counter m + 1)).

Definition opcode (word : Z) : Z := Bitpack_getu word 4 28.

Definition execute (m : machine) (OP_CODE A B C : Z) : result machine :=
  if OP_CODE =? 0 then Ok (conditional_move m A B C)
  else if OP_CODE =? 1 then segmented_load m A B C
  else if OP_CODE =? 2 then segmented_store m A B C
  else if OP_CODE =? 3 then Ok (addition m A B C)
  else if OP_CODE =? 4 then Ok (multiplication m A B C)
  else if OP_CODE =? 5 then division m A B C
  else if OP_CODE =? 6 then Ok (bitwise_nand m A B C)
  else if OP_CODE =? 8 then map m B C
  else if OP_CODE =? 9 then unmap m C
  else if OP_CODE =? 10 then Ok (output m C)
  else if OP_CODE =? 11 then Ok (input m C)
  else if OP_CODE =? 12 then load_program m B
  else Ok m.

Definition step (m : machine) : result outcome :=
  let* word := fetch m in
  let OP_CODE := opcode word in
  if OP_CODE =? 7 then Ok (Halted m)
  else if OP_CODE =? 13 then
    let A := Bitpack_getu word 3 25 in
    let load_val := Bitpack_getu word 25 0 in
    let m1 := load_value m A load_val in
    Ok (Continue (set_pc m1 (u32 (program_counter m1 + 1))))
  else
    let A := Bitpack_getu word 3 6 in
    let B := Bitpack_getu word 3 3 in
    let C := Bitpack_getu word 3 0 in
    let* m1 := execute m OP_CODE A B C in
    if OP_CODE =? 12 then Ok (Continue (set_pc m1 (reg m1 C)))
    else Ok (Continue (set_pc m1 (u32 (program_counter m1 + 1)))).

Inductive run_result :=
  | Finished (m : machine)
  | Faulted (f : fault) (m : machine)
  | Out_of_fuel (m : machine).

Definition final_machine (r : run_result) : machine :=
  match r with
  | Finished m | Faulted _ m | Out_of_fuel m => m
  end.

Fixpoint run_loop (fuel : nat) (m : machine) : run_result :=
  match fuel with
  | O => Out_of_fuel m
  | S fuel' =>
      match step m with
      | Ok (Halted m') => Finished m'
      | Ok (Continue m') => run_loop fuel' m'
      | Fault f => Faulted f m
      end
  end.

Definition newline : string := String (Ascii.ascii_of_nat 10) EmptyString.

Definition debug_line : string := ("POOPY BUTT" ++ newline)%string.

Definition run_program (fuel : nat) (m : machine) : run_result :=
  run_loop fuel (set_io m (stdin_bytes m) (trace m ++ [Stderr debug_line])).

(** [main]: load the file, then run with the given standard input. *)
Definition um_main (fp stdin : list Z) (fuel : nat) : result run_result :=
  let* m := read_program_file fp in
  Ok (run_program fuel (set_io m stdin [])).

(** The end-to-end scenarios of the spec, as word lists. *)
Definition bytes_of_word (w : Z) : list Z :=
  [Z.shiftr w 24 mod 256; Z.shiftr w 16 mod 256; Z.shiftr w 8 mod 256; w mod 256].

Definition program_file (ws : list Z) : list Z := List.flat_map bytes_of_word ws.

Definition stdout_of (m : machine) : list Z :=
  List.flat_map (fun e => match e with Stdout b => [b] | Stderr _ => [] end) (trace m).

Example scenario_halt :
  um_main (program_file [0x70000000]) [] 10 =
  Ok (Finished (set_io (new_UM 0 {[0 := [1; 0x70000000]]} 1) [] [Stderr debug_line])).
Proof. reflexivity. Qed.

Example scenario_print_A :
  option_map stdout_of
    (match um_main (program_file [0xD0000041; 0xA0000000; 0x70000000]) [] 10 with
     | Ok (Finished m) => Some m | _ => None end) = Some [0x41].
Proof. vm_compute. reflexivity. Qed.

Example scenario_echo :
  option_map stdout_of
    (match um_main (program_file [0xB0000000; 0xA0000000; 0x70000000]) [0x5A] 10 with
     | Ok (Finished m) => Some m | _ => None end) = Some [0x5A].
Proof. vm_compute. reflexivity. Qed.

Example scenario_map_store_load :
  option_map stdout_of
    (match um_main (program_file [0xD4000001; 0x8000000A; 0xD6000041; 0x20000043;
                                  0x10000108; 0xA0000004; 0x90000001; 0x70000000]) [] 20 with
     | Ok (Finished m) => Some m | _ => None end) = Some [0x41].
Proof. vm_compute. reflexivity. Qed.

(** ** Generic facts about the monad and the state *)

Lemma bind_Ok {A B} (m : result A) (k : A -> result B) (b : B) :
  bind m k = Ok b -> exists a, m = Ok a /\ k a = Ok b.
Proof. destruct m; simpl; [eauto | discriminate]. Qed.

Ltac inv_bind :=
  repeat match goal with
  | H : bind _ _ = Ok _ |- _ =>
      let a := fresh "a" in let Ha := fresh "Ha" in
      apply bind_Ok in H; destruct H as (a & Ha & H)
  end.

Ltac crush_ok :=
  repeat (inv_bind; match goal with
  | H : Ok _ = Ok _ |- _ => injection H as H; subst
  | H : (_, _) = (_, _) |- _ => injection H as H; subst
  | H : Fault _ = Ok _ |- _ => discriminate H
  | H : context [if ?c then _ else _] |- _ => destruct c eqn:?
  | H : context [match ?x with _ => _ end] |- _ => destruct x eqn:?
  end).

Ltac unfold_prims :=
  unfold spine_set, free, malloc, grow_size, heap_get, spine_get, arr_set,
    arr_get, copy_words in *.

Lemma u32_id (x : Z) : 0 <= x < 2 ^ 32 -> u32 x = x.
Proof. intros. unfold u32. apply Z.mod_small. lia. Qed.

(** ** Input (opcode 11) *)

(** Claim C7: opcode 11 reads one byte of standard input unchanged into
    [R[C]], or stores [0xFFFFFFFF] at end of file; the program counter then
    moves to the next word. *)
Theorem input_step (m : machine) (word : Z) :
  fetch m = Ok word -> opcode word = 11 ->
  step m = Ok (Continue (set_pc
    (match stdin_bytes m with
     | [] => set_reg m (Bitpack_getu word 3 0) 0xFFFFFFFF
     | b :: rest => set_reg (set_io m rest (trace m)) (Bitpack_getu word 3 0) b
     end) (u32 (program_counter m + 1)))).
Proof.
  intros Hf Hop. unfold step. rewrite Hf. cbn [bind]. rewrite Hop.
  cbn [Z.eqb Pos.eqb]. unfold execute. cbn [Z.eqb Pos.eqb]. unfold input.
  destruct (stdin_bytes m); reflexivity.
Qed.

(** A machine whose segment 0 holds [prog], as [read_program_file] builds it. *)
Definition machine_of (prog : list Z) (stdin : list Z) : machine :=
  set_io (new_UM 0 {[0 := Z.of_nat (length prog) :: prog]} 1) stdin [].

Lemma input_step_witness :
  (fetch (machine_of [0xB0000000; 0x70000000] []) = Ok 0xB0000000 /\
   opcode 0xB0000000 = 11) /\
  step (machine_of [0xB0000000; 0x70000000] []) =
  Ok (Continue (set_pc (set_reg (machine_of [0xB0000000; 0x70000000] []) 0 0xFFFFFFFF) 1)).
Proof.
  split; [split; reflexivity|].
  apply (input_step (machine_of [0xB0000000; 0x70000000] []) 0xB0000000);
    reflexivity.
Defined.

(** ** Opcodes 14 and 15 *)

(** Claim C9: a word whose opcode field is 14 or 15 does not trap: only the
    program counter changes, to the next word. *)
Theorem unused_opcode_step (m : machine) (word : Z) :
  fetch m = Ok word -> opcode word = 14 \/ opcode word = 15 ->
  step m = Ok (Continue (set_pc m (u32 (program_counter m + 1)))).
Proof.
  intros Hf Hop. unfold step. rewrite Hf. cbn [bind].
  destruct Hop as [Hop | Hop]; rewrite Hop; cbn [Z.eqb Pos.eqb];
    unfold execute; cbn [Z.eqb Pos.eqb]; reflexivity.
Qed.

Lemma unused_opcode_step_witness :
  (fetch (machine_of [0xE0000000; 0x70000000] []) = Ok 0xE0000000 /\
   (opcode 0xE0000000 = 14 \/ opcode 0xE0000000 = 15)) /\
  step (machine_of [0xE0000000; 0x70000000] []) =
  Ok (Continue (set_pc (machine_of [0xE0000000; 0x70000000] []) 1)).
Proof.
  split; [split; [reflexivity | left; reflexivity]|].
  apply (unused_opcode_step (machine_of [0xE0000000; 0x70000000] []) 0xE0000000).
  - reflexivity.
  - left; reflexivity.
Defined.

(** ** Output (opcode 10) *)

(** Opcode 10 never faults: it appends the low byte of [R[C]] to the output
    and moves to the next word, whatever the value of [R[C]]. *)
Lemma output_step (m : machine) (word : Z) :
  fetch m = Ok word -> opcode word = 10 ->
  step m = Ok (Continue (set_pc
    (set_io m (stdin_bytes m) (trace m ++ [Stdout (reg m (Bitpack_getu word 3 0) mod 256)]))
    (u32 (program_counter m + 1)))).
Proof.
  intros Hf Hop. unfold step. rewrite Hf. cbn [bind]. rewrite Hop.
  cbn [Z.eqb Pos.eqb]. unfold execute. cbn [Z.eqb Pos.eqb]. reflexivity.
Qed.

(** [R[0] := 256] (two Load Values and a multiplication: 16 * 16), then
    Output [R[0]], then Halt. *)
Definition prog_output_256 : list Z :=
  [0xD0000010; 0x40000000; 0xA0000000; 0x70000000].

(** Claim C4 (code defect): after [R[0] := 256], Output writes the byte 0
    and execution continues to the next word; no fatal error is raised. *)
Theorem output_256_continues :
  run_program 10 (machine_of prog_output_256 []) =
  Finished (set_pc (set_io (set_reg (machine_of prog_output_256 []) 0 256) []
    [Stderr debug_line; Stdout 0]) 3).
Proof. vm_compute. reflexivity. Qed.

(** ** Division (opcode 5) *)

(** Claim C3 (code defect): a Division with [R[C] = 0] is an unchecked C
    division by zero, that is undefined behaviour, not a checked fatal
    error. *)
Theorem division_by_zero_undefined :
  step (machine_of [0x50000000; 0x70000000] []) = Fault Undefined_behaviour.
Proof. reflexivity. Qed.

(** ** Standard error (run_program, line 445) *)

Lemma map_segment_trace m n m' id :
  map_segment m n = Ok (m', id) -> trace m' = trace m.
Proof. unfold map_segment. unfold_prims. intros H. crush_ok; reflexivity. Qed.

Lemma unmap_segment_trace m id m' :
  unmap_segment m id = Ok m' -> trace m' = trace m.
Proof. unfold unmap_segment. unfold_prims. intros H. crush_ok; reflexivity. Qed.

Lemma load_program_trace m B m' :
  load_program m B = Ok m' -> trace m' = trace m.
Proof. unfold load_program. unfold_prims. intros H. crush_ok; reflexivity. Qed.

Lemma execute_trace m op A B C m' :
  execute m op A B C = Ok m' ->
  trace m' = trace m \/ exists b, trace m' = trace m ++ [Stdout b].
Proof.
  unfold execute. intros H.
  repeat match goal with
  | H : context [if ?c then _ else _] |- _ => destruct c
  end;
  try (injection H as <-; left; unfold conditional_move;
       try destruct (negb _); reflexivity).
  - unfold segmented_load in H. crush_ok. left; reflexivity.
  - unfold segmented_store, store_word in H. unfold_prims. crush_ok. left; reflexivity.
  - unfold division in H. crush_ok. left; reflexivity.
  - unfold map in H. apply bind_Ok in H as ([m1 id] & Hm & H).
    injection H as <-. left. apply map_segment_trace in Hm. exact Hm.
  - left. apply (unmap_segment_trace _ _ _ H).
  - injection H as <-. right. eexists. reflexivity.
  - injection H as <-. left. unfold input. destruct (stdin_bytes m); reflexivity.
  - left. apply (load_program_trace _ _ _ H).
Qed.

Lemma step_trace m o :
  step m = Ok o ->
  exists bs, trace (match o with Continue m' | Halted m' => m' end)
             = trace m ++ List.map Stdout bs.
Proof.
  unfold step. intros H. inv_bind.
  destruct (opcode a =? 7).
  { injection H as <-. exists []. rewrite app_nil_r. reflexivity. }
  destruct (opcode a =? 13).
  { injection H as <-. exists []. rewrite app_nil_r. reflexivity. }
  inv_bind. apply execute_trace in Ha0.
  destruct (opcode a =? 12); injection H as <-; cbn;
    (destruct Ha0 as [-> | [b ->]]; [exists []; rewrite app_nil_r | exists [b]]; reflexivity).
Qed.

Lemma run_loop_trace fuel m :
  exists bs, trace (final_machine (run_loop fuel m)) = trace m ++ List.map Stdout bs.
Proof.
  revert m. induction fuel as [|fuel IH]; intros m; cbn.
  - exists []. rewrite app_nil_r. reflexivity.
  - destruct (step m) as [[m' | m'] | f] eqn:Hs.
    + destruct (IH m') as [bs Hbs]. apply step_trace in Hs as [bs' Hs]. cbn in Hs.
      exists (bs' ++ bs). rewrite Hbs, Hs, List.map_app, app_assoc. reflexivity.
    + apply step_trace in Hs as [bs' Hs]. exists bs'. exact Hs.
    + exists []. rewrite app_nil_r. reflexivity.
Qed.

(** Claim C10: every run that reaches [run_program] writes [POOPY BUTT]
    and a newline to standard error exactly once, before any other output:
    the rest of the trace is standard-output bytes only. *)
Theorem um_main_debug_line (fp stdin : list Z) (fuel : nat) (r : run_result) :
  um_main fp stdin fuel = Ok r ->
  exists bs, trace (final_machine r) = Stderr debug_line :: List.map Stdout bs.
Proof.
  unfold um_main. intros H. inv_bind. injection H as <-.
  unfold run_program. destruct (run_loop_trace fuel
    (set_io (set_io a stdin []) (stdin_bytes (set_io a stdin []))
       (trace (set_io a stdin []) ++ [Stderr debug_line]))) as [bs Hbs].
  exists bs. exact Hbs.
Qed.

Lemma um_main_debug_line_witness :
  um_main (program_file [0x70000000]) [] 1 =
    Ok (run_program 1 (set_io (new_UM 0 {[0 := [1; 0x70000000]]} 1) [] [])) /\
  exists bs, trace (final_machine
    (run_program 1 (set_io (new_UM 0 {[0 := [1; 0x70000000]]} 1) [] [])))
    = Stderr debug_line :: List.map Stdout bs.
Proof.
  split; [reflexivity|].
  apply (um_main_debug_line (program_file [0x70000000]) [] 1). reflexivity.
Defined.

(** ** The representation invariant *)

(** The array a segment identifier names, through the spine and the heap. *)
Definition seg_array (m : machine) (id : Z) : option (list Z) :=
  match segments m !! id with
  | Some p => heap m !! p
  | None => None
  end.

(** The length word kept in cell 0 of a segment's array. *)
Definition seg_length (m : machine) (id : Z) : option Z :=
  match seg_array m id with
  | Some (h :: _) => Some h
  | _ => None
  end.

(** An identifier is mapped when its spine slot holds an array and it is
    not waiting on the free-identifier stack. *)
Definition mapped (m : machine) (id : Z) : Prop :=
  is_Some (segments m !! id) /\ id ∉ unmapped_IDs m.

(** Spine slots ever handed out: the live ones and the free ones. *)
Definition slots (m : machine) : Z :=
  num_segments m + Z.of_nat (length (unmapped_IDs m)).

Definition word_ok (x : Z) : Prop := 0 <= x < 2 ^ 32.

(** Cell 0 holds the number of words after it; all cells are words. *)
Definition hdr_ok (a : list Z) : Prop :=
  match a with
  | h :: rest => Z.of_nat (length rest) = h /\ h < 2 ^ 32 - 1 /\ Forall word_ok a
  | [] => False
  end.

Record wf (m : machine) : Prop := {
  wf_regs : Forall word_ok (registers m);
  wf_stdin : Forall (fun b => 0 <= b < 256) (stdin_bytes m);
  wf_num : 1 <= num_segments m;
  wf_dom : forall id, is_Some (segments m !! id) <-> 0 <= id < slots m;
  wf_arrays : forall id p, segments m !! id = Some p ->
              exists a, heap m !! p = Some a /\ hdr_ok a;
  wf_inj : forall i j p, segments m !! i = Some p -> segments m !! j = Some p -> i = j;
  wf_fresh : forall p, is_Some (heap m !! p) -> p < next_addr m;
  wf_pool_nodup : NoDup (unmapped_IDs m);
  wf_pool_range : forall id, id ∈ unmapped_IDs m -> 0 < id < slots m;
  wf_spine_cap : slots m <= segment_arr_size m;
  wf_spine_pow : exists k, 0 <= k <= 31 /\ segment_arr_size m = 2 ^ k;
  wf_pool_cap : Z.of_nat (length (unmapped_IDs m)) <= ID_arr_size m;
  wf_pool_pow : exists k, 0 <= k <= 31 /\ ID_arr_size m = 2 ^ k;
  wf_reglen : length (registers m) = 8%nat
}.

(** The spec's preconditions of the fetched instruction: in-range segmented
    load and store, unmap of a mapped non-zero identifier, load-program of
    segment 0 or of a mapped identifier. *)
Definition in_range (m : machine) (id off : Z) : Prop :=
  mapped m id /\ exists h, seg_length m id = Some h /\ 0 <= off < h.

Definition step_pre (m : machine) (word : Z) : Prop :=
  let A := Bitpack_getu word 3 6 in
  let B := Bitpack_getu word 3 3 in
  let C := Bitpack_getu word 3 0 in
  (opcode word = 1 -> in_range m (reg m B) (reg m C)) /\
  (opcode word = 2 -> in_range m (reg m A) (reg m B)) /\
  (opcode word = 9 -> reg m C <> 0 /\ mapped m (reg m C)) /\
  (opcode word = 12 -> reg m B = 0 \/ mapped m (reg m B)).

(** *** Arithmetic facts *)

Lemma nodup_range_length (l : list Z) (lo hi : Z) :
  NoDup l -> (forall x, x ∈ l -> lo <= x < hi) -> lo <= hi ->
  Z.of_nat (length l) <= hi - lo.
Proof.
  intros Hnd Hin Hle.
  assert (length l <= length (seqZ lo (hi - lo)))%nat as Hlen.
  { apply NoDup_incl_length; [apply NoDup_ListNoDup; exact Hnd|].
    intros x Hx. apply list_elem_of_In. apply list_elem_of_In in Hx.
    apply elem_of_seqZ. specialize (Hin x Hx). lia. }
  rewrite length_seqZ in Hlen. lia.
Qed.

Lemma u32_range (x : Z) : word_ok (u32 x).
Proof. unfold word_ok, u32. apply Z.mod_pos_bound. lia. Qed.

Lemma reg_range (m : machine) (r : Z) :
  Forall word_ok (registers m) -> word_ok (reg m r).
Proof.
  intros H. unfold reg.
  destruct (decide (Z.to_nat r < length (registers m))%nat) as [Hlt|Hge].
  - rewrite Forall_forall in H. apply H. apply list_elem_of_In, nth_In. exact Hlt.
  - rewrite nth_overflow by lia. unfold word_ok. lia.
Qed.

Lemma pow2_le_32 (k : Z) : 0 <= k <= 31 -> 2 ^ k <= 2 ^ 31.
Proof. intros. apply Z.pow_le_mono_r; lia. Qed.


(** *** Register, I/O and program-counter updates *)

Lemma wf_set_pc (m : machine) (pc : Z) : wf m -> wf (set_pc m pc).
Proof. destruct 1; constructor; assumption. Qed.

Lemma wf_set_reg (m : machine) (r v : Z) : wf m -> word_ok v -> wf (set_reg m r v).
Proof.
  destruct 1; intros Hv; constructor; try assumption; cbn.
  - apply Forall_insert; assumption.
  - rewrite length_insert. assumption.
Qed.

Lemma wf_output (m : machine) (C : Z) : wf m -> wf (output m C).
Proof. destruct 1; constructor; assumption. Qed.

Lemma wf_input (m : machine) (C : Z) : wf m -> wf (input m C).
Proof.
  intros Hwf. unfold input. destruct (stdin_bytes m) as [|b rest] eqn:Hin.
  - apply wf_set_reg; [exact Hwf | apply u32_range].
  - pose proof (wf_stdin m Hwf) as Hs. rewrite Hin in Hs.
    apply Forall_cons in Hs as [Hb Hrest].
    apply wf_set_reg; [| unfold word_ok; lia].
    destruct Hwf; constructor; assumption.
Qed.

(** *** Segmented load and store *)

Lemma hdr_ok_insert (a : list Z) (i : nat) (v : Z) :
  hdr_ok a -> (1 <= i)%nat -> word_ok v -> hdr_ok (<[i := v]> a).
Proof.
  destruct a as [|h rest]; [contradiction|]. destruct i as [|i]; [lia|].
  intros (Hl & Hh & Hf) _ Hv.
  change (<[S i:=v]> (h :: rest)) with (h :: <[i:=v]> rest). split; [|split].
  - rewrite length_insert. exact Hl.
  - exact Hh.
  - apply Forall_cons in Hf as [Hh0 Hf]. constructor; [exact Hh0|].
    apply Forall_insert; assumption.
Qed.

Lemma in_range_array (m : machine) (id off : Z) :
  wf m -> in_range m id off ->
  exists p h rest, segments m !! id = Some p /\ heap m !! p = Some (h :: rest) /\
    hdr_ok (h :: rest) /\ 0 <= off < h.
Proof.
  intros Hwf ([[p Hp] _] & h & Hlen & Hoff).
  destruct (wf_arrays m Hwf id p Hp) as (a & Ha & Hok).
  unfold seg_length, seg_array in Hlen. rewrite Hp, Ha in Hlen.
  destruct a as [|h' rest]; [discriminate|]. injection Hlen as ->.
  exists p, h, rest. auto.
Qed.

Lemma store_word_ok (m : machine) (id off v : Z) :
  wf m -> in_range m id off ->
  exists p a, segments m !! id = Some p /\ heap m !! p = Some a /\
    store_word m id off v =
    Ok (set_heap m (<[p := <[Z.to_nat (off + 1) := v]> a]> (heap m)) (next_addr m)).
Proof.
  intros Hwf Hr.
  destruct (in_range_array m id off Hwf Hr) as (p & h & rest & Hp & Ha & Hok & Hoff).
  exists p, (h :: rest). split; [exact Hp|]. split; [exact Ha|].
  destruct Hok as (Hl & Hh & _).
  unfold store_word, spine_get, heap_get, arr_set. rewrite Hp. cbn [bind]. rewrite Ha. cbn [bind].
  rewrite (u32_id (off + 1)) by lia.
  replace ((0 <=? off + 1) && (off + 1 <? Z.of_nat (length (h :: rest)))) with true.
  - reflexivity.
  - symmetry. apply andb_true_iff. cbn [length]. split; [apply Z.leb_le | apply Z.ltb_lt]; lia.
Qed.

Lemma load_word_ok (m : machine) (id off : Z) :
  wf m -> in_range m id off ->
  exists p a v, segments m !! id = Some p /\ heap m !! p = Some a /\
    a !! Z.to_nat (off + 1) = Some v /\ load_word m id off = Ok v /\ word_ok v.
Proof.
  intros Hwf Hr.
  destruct (in_range_array m id off Hwf Hr) as (p & h & rest & Hp & Ha & Hok & Hoff).
  destruct Hok as (Hl & Hh & Hf).
  destruct (lookup_lt_is_Some_2 (h :: rest) (Z.to_nat (off + 1))) as [v Hv].
  { cbn [length]. lia. }
  exists p, (h :: rest), v. split; [exact Hp|]. split; [exact Ha|]. split; [exact Hv|].
  split.
  - unfold load_word, spine_get, heap_get, arr_get. rewrite Hp. cbn [bind]. rewrite Ha. cbn [bind].
    rewrite (u32_id (off + 1)) by lia.
    replace (0 <=? off + 1) with true by (symmetry; apply Z.leb_le; lia).
    rewrite Hv. reflexivity.
  - rewrite Forall_lookup in Hf. exact (Hf _ _ Hv).
Qed.

(** *** Map *)

Ltac simpl_machine :=
  cbn [set_registers set_pc set_pool set_spine set_heap set_io
       registers program_counter unmapped_IDs ID_arr_size segments
       num_segments segment_arr_size heap next_addr stdin_bytes trace] in *.
Lemma arr_set_head (x v : Z) (l : list Z) : arr_set (x :: l) 0 v = Ok (v :: l).
Proof. reflexivity. Qed.

Lemma map_segment_inv (m m' : machine) (n id : Z) :
  word_ok n -> map_segment m n = Ok (m', id) ->
  n < 2 ^ 32 - 1 /\
  registers m' = registers m /\ program_counter m' = program_counter m /\
  stdin_bytes m' = stdin_bytes m /\ trace m' = trace m /\
  next_addr m' = next_addr m + 1 /\ ID_arr_size m' = ID_arr_size m /\
  num_segments m' = u32 (num_segments m + 1) /\
  ((unmapped_IDs m = [] /\ id = u32 (u32 (num_segments m + 1) - 1) /\
    unmapped_IDs m' = [] /\
    segments m' = <[num_segments m := next_addr m]> (segments m) /\
    heap m' = <[next_addr m := n :: repeat 0 (Z.to_nat n)]> (heap m) /\
    0 <= num_segments m < segment_arr_size m' /\
    (segment_arr_size m' = segment_arr_size m \/
     (num_segments m = segment_arr_size m /\
      segment_arr_size m' = u32 (segment_arr_size m * 2)))) \/
   (exists rest p, unmapped_IDs m = id :: rest /\ unmapped_IDs m' = rest /\
    segments m !! id = Some p /\ 0 <= id < segment_arr_size m /\
    (<[next_addr m := n :: repeat 0 (Z.to_nat n)]> (heap m)) !! p <> None /\
    segments m' = <[id := next_addr m]> (segments m) /\
    heap m' = delete p (<[next_addr m := n :: repeat 0 (Z.to_nat n)]> (heap m)) /\
    segment_arr_size m' = segment_arr_size m)).
Proof.
  intros Hn H. unfold map_segment, malloc in H.
  unfold heap_get at 1 in H. simpl_machine. rewrite lookup_insert_eq in H. cbn [bind] in H.
  destruct (decide (n = 2 ^ 32 - 1)) as [-> | Hne]; [discriminate H|].
  unfold word_ok in Hn. rewrite u32_id in H by lia.
  replace (Z.to_nat (n + 1)) with (S (Z.to_nat n)) in H by lia.
  change (repeat 0 (S (Z.to_nat n))) with (0 :: repeat 0 (Z.to_nat n)) in H.
  rewrite arr_set_head in H. cbn [bind] in H. rewrite insert_insert_eq in H.
  split; [lia|].
  destruct (unmapped_IDs m) as [|r rest] eqn:Hpool.
  - unfold grow_size, spine_set in H. crush_ok; simpl_machine;
      repeat split; try reflexivity; left; repeat split; try reflexivity;
      rewrite ?andb_true_iff, ?Z.leb_le, ?Z.ltb_lt, ?Z.eqb_eq in *;
      try lia; assumption.
  - unfold spine_get, free, spine_set in H. crush_ok; simpl_machine;
      repeat split; try reflexivity. right. exists rest, a.
      rewrite ?andb_true_iff, ?Z.leb_le, ?Z.ltb_lt in *.
      repeat split; try reflexivity; try assumption; try lia; congruence.
Qed.

Ltac pow_facts :=
  assert (2 ^ 31 = 2147483648) by reflexivity;
  assert (2 ^ 32 = 4294967296) by reflexivity.

Lemma grow_pow (k : Z) :
  0 <= k <= 31 ->
  (k = 31 /\ u32 (2 ^ k * 2) = 0) \/ (k < 31 /\ u32 (2 ^ k * 2) = 2 ^ (k + 1)).
Proof.
  intros Hk. destruct (decide (k = 31)) as [-> | Hne].
  - left. split; reflexivity.
  - right. split; [lia|]. rewrite Z.pow_add_r, Z.pow_1_r by lia.
    apply u32_id. split; [lia|].
    assert (2 ^ k <= 2 ^ 30) by (apply Z.pow_le_mono_r; lia). lia.
Qed.

Lemma hdr_ok_zeros (n : Z) :
  0 <= n < 2 ^ 32 - 1 -> hdr_ok (n :: repeat 0 (Z.to_nat n)).
Proof.
  intros Hn. split; [|split].
  - rewrite repeat_length. lia.
  - lia.
  - constructor; [unfold word_ok; lia|].
    apply Forall_forall. intros x Hx. apply list_elem_of_In, repeat_spec in Hx.
    subst. unfold word_ok. lia.
Qed.

Lemma wf_spine_ptr (m : machine) (j p : Z) :
  wf m -> segments m !! j = Some p -> p < next_addr m /\ is_Some (heap m !! p).
Proof.
  intros Hwf Hj. destruct (wf_arrays m Hwf j p Hj) as (a & Ha & _).
  split; [apply (wf_fresh m Hwf) |]; eauto.
Qed.

Lemma map_segment_wf (m m' : machine) (n id : Z) :
  wf m -> word_ok n -> map_segment m n = Ok (m', id) ->
  wf m' /\ 0 < id < 2 ^ 31 /\ ~ mapped m id /\
  seg_array m' id = Some (n :: repeat 0 (Z.to_nat n)) /\
  (forall j, j <> id -> seg_array m' j = seg_array m j).
Proof.
  intros Hwf Hn H.
  destruct (map_segment_inv m m' n id Hn H) as
    (Hn' & Hregs & Hpc & Hin & Htr & Hnext & Hids & Hnum & Hcase).
  pose proof (wf_spine_pow m Hwf) as (k & Hk & Hsize).
  pose proof (wf_spine_cap m Hwf) as Hcap.
  pose proof (wf_num m Hwf) as Hnum1.
  pose proof (pow2_le_32 k Hk) as Hk31.
  unfold word_ok in Hn. pow_facts.
  destruct Hcase as [(Hpool & Hid & Hpool' & Hsegs & Hheap & Hlt & Hsize') |
                     (rest & p & Hpool & Hpool' & Hp & Hidr & Hpin & Hsegs & Hheap & Hsize')].
  - (* a new identifier past the highest one *)
    unfold slots in Hcap. rewrite Hpool in Hcap. cbn [length] in Hcap.
    assert (Hsz : segment_arr_size m' <= 2 ^ 31 /\
                  (exists k', 0 <= k' <= 31 /\ segment_arr_size m' = 2 ^ k')).
    { destruct Hsize' as [Hs | [Heq Hs]]; rewrite Hs in *; rewrite Hsize in *.
      - split; [lia | eauto].
      - destruct (grow_pow k Hk) as [[Hk' Hz] | [Hk' Hz]]; rewrite Hz in *; [lia|].
        split; [apply Z.pow_le_mono_r; lia | exists (k + 1); split; [lia | reflexivity]]. }
    destruct Hsz as [Hsz Hpow].
    assert (Hnum' : num_segments m' = num_segments m + 1) by (rewrite Hnum; apply u32_id; lia).
    assert (Hid' : id = num_segments m) by (rewrite Hid, u32_id, u32_id; lia).
    clear Hid. subst id.
    pose proof (wf_dom m Hwf) as Hdom. unfold slots in Hdom.
    rewrite Hpool in Hdom. cbn [length] in Hdom.
    split; [constructor|].
    + rewrite Hregs. apply (wf_regs m Hwf).
    + rewrite Hin. apply (wf_stdin m Hwf).
    + lia.
    + intros j. unfold slots. rewrite Hsegs, Hnum', Hpool', lookup_insert_is_Some', Hdom.
      cbn [length]. lia.
    + intros j p Hj. rewrite Hsegs in Hj. rewrite Hheap.
      destruct (decide (j = num_segments m)) as [-> | Hne].
      * rewrite lookup_insert_eq in Hj. injection Hj as <-.
        rewrite lookup_insert_eq. eexists; split; [reflexivity | apply hdr_ok_zeros; lia].
      * rewrite lookup_insert_ne in Hj by congruence.
        destruct (wf_spine_ptr m j p Hwf Hj) as [Hlt' _].
        rewrite lookup_insert_ne by lia. apply (wf_arrays m Hwf j p Hj).
    + intros i j p Hi Hj. rewrite Hsegs in Hi, Hj.
      destruct (decide (i = num_segments m)) as [-> | Hi'];
      destruct (decide (j = num_segments m)) as [-> | Hj']; try reflexivity.
      * rewrite lookup_insert_eq in Hi. rewrite lookup_insert_ne in Hj by congruence.
        injection Hi as <-. destruct (wf_spine_ptr m j _ Hwf Hj). lia.
      * rewrite lookup_insert_eq in Hj. rewrite lookup_insert_ne in Hi by congruence.
        injection Hj as <-. destruct (wf_spine_ptr m i _ Hwf Hi). lia.
      * rewrite lookup_insert_ne in Hi, Hj by congruence.
        apply (wf_inj m Hwf i j p Hi Hj).
    + intros p Hp. rewrite Hheap in Hp. rewrite Hnext.
      apply lookup_insert_is_Some' in Hp as [<- | Hp]; [lia|].
      apply (wf_fresh m Hwf) in Hp. lia.
    + rewrite Hpool'. constructor.
    + rewrite Hpool'. intros x Hx. inversion Hx.
    + unfold slots. rewrite Hnum', Hpool'. cbn [length]. lia.
    + exact Hpow.
    + rewrite Hpool', Hids. pose proof (wf_pool_cap m Hwf) as Hc.
      rewrite Hpool in Hc. exact Hc.
    + rewrite Hids. apply (wf_pool_pow m Hwf).
    + rewrite Hregs. apply (wf_reglen m Hwf).
    + split; [lia|]. split; [|split].
      * intros [Hs _]. apply Hdom in Hs. lia.
      * unfold seg_array. rewrite Hsegs, lookup_insert_eq, Hheap, lookup_insert_eq.
        reflexivity.
      * intros j Hj. unfold seg_array. rewrite Hsegs, lookup_insert_ne by congruence.
        destruct (segments m !! j) as [p|] eqn:E; [|reflexivity].
        destruct (wf_spine_ptr m j p Hwf E). rewrite Hheap, lookup_insert_ne by lia.
        reflexivity.
  - (* the top of the free-identifier stack *)
    pose proof (wf_pool_nodup m Hwf) as Hnd. rewrite Hpool in Hnd.
    apply NoDup_cons in Hnd as [Hnotin Hnd].
    pose proof (wf_pool_range m Hwf) as Hrange. rewrite Hpool in Hrange.
    assert (Hid : 0 < id < slots m) by (apply Hrange; left).
    assert (Hslots : slots m = num_segments m + 1 + Z.of_nat (length rest))
      by (unfold slots; rewrite Hpool; cbn [length]; lia).
    assert (Hnum' : num_segments m' = num_segments m + 1)
      by (rewrite Hnum; apply u32_id; lia).
    assert (Hslots' : slots m' = slots m) by (unfold slots; rewrite Hnum', Hpool', Hpool; cbn [length]; lia).
    destruct (wf_spine_ptr m id p Hwf Hp) as [Hpq _].
    assert (Hother : forall j pj, segments m !! j = Some pj -> j <> id ->
              pj <> p /\ pj < next_addr m).
    { intros j pj Hj Hne. split.
      - intros ->. apply Hne. apply (wf_inj m Hwf j id p Hj Hp).
      - apply (wf_spine_ptr m j pj Hwf Hj). }
    split; [constructor|].
    + rewrite Hregs. apply (wf_regs m Hwf).
    + rewrite Hin. apply (wf_stdin m Hwf).
    + lia.
    + intros j. rewrite Hslots', Hsegs, lookup_insert_is_Some', (wf_dom m Hwf j). lia.
    + intros j pj Hj. rewrite Hsegs in Hj. rewrite Hheap.
      destruct (decide (j = id)) as [-> | Hne].
      * rewrite lookup_insert_eq in Hj. injection Hj as <-.
        rewrite lookup_delete_ne by lia. rewrite lookup_insert_eq.
        eexists; split; [reflexivity | apply hdr_ok_zeros; lia].
      * rewrite lookup_insert_ne in Hj by congruence.
        destruct (Hother j pj Hj Hne) as [Hp1 Hp2].
        rewrite lookup_delete_ne by congruence. rewrite lookup_insert_ne by lia.
        apply (wf_arrays m Hwf j pj Hj).
    + intros i j q Hi Hj. rewrite Hsegs in Hi, Hj.
      destruct (decide (i = id)) as [-> | Hi'];
      destruct (decide (j = id)) as [-> | Hj']; try reflexivity.
      * rewrite lookup_insert_eq in Hi. rewrite lookup_insert_ne in Hj by congruence.
        injection Hi as <-. destruct (Hother j _ Hj Hj'). lia.
      * rewrite lookup_insert_eq in Hj. rewrite lookup_insert_ne in Hi by congruence.
        injection Hj as <-. destruct (Hother i _ Hi Hi'). lia.
      * rewrite lookup_insert_ne in Hi, Hj by congruence.
        apply (wf_inj m Hwf i j q Hi Hj).
    + intros x Hx. rewrite Hheap in Hx. rewrite Hnext.
      apply lookup_delete_is_Some in Hx as [_ Hx].
      apply lookup_insert_is_Some' in Hx as [<- | Hx]; [lia|].
      apply (wf_fresh m Hwf) in Hx. lia.
    + rewrite Hpool'. exact Hnd.
    + rewrite Hpool', Hslots'. intros x Hx. apply Hrange. right. exact Hx.
    + rewrite Hslots', Hsize'. apply (wf_spine_cap m Hwf).
    + rewrite Hsize'. apply (wf_spine_pow m Hwf).
    + rewrite Hpool', Hids. pose proof (wf_pool_cap m Hwf) as Hc.
      rewrite Hpool in Hc. cbn [length] in Hc. lia.
    + rewrite Hids. apply (wf_pool_pow m Hwf).
    + rewrite Hregs. apply (wf_reglen m Hwf).
    + split; [lia|]. split; [|split].
      * intros [_ Hs]. apply Hs. rewrite Hpool. left.
      * unfold seg_array. rewrite Hsegs, lookup_insert_eq, Hheap.
        rewrite lookup_delete_ne by lia. rewrite lookup_insert_eq. reflexivity.
      * intros j Hj. unfold seg_array. rewrite Hsegs, lookup_insert_ne by congruence.
        destruct (segments m !! j) as [pj|] eqn:E; [|reflexivity].
        destruct (Hother j pj E Hj). rewrite Hheap.
        rewrite lookup_delete_ne by congruence. rewrite lookup_insert_ne by lia.
        reflexivity.
Qed.

(** *** Unmap *)

Lemma unmap_segment_inv (m m' : machine) (id : Z) :
  unmap_segment m id = Ok m' ->
  registers m' = registers m /\ program_counter m' = program_counter m /\
  stdin_bytes m' = stdin_bytes m /\ trace m' = trace m /\
  segments m' = segments m /\ heap m' = heap m /\ next_addr m' = next_addr m /\
  segment_arr_size m' = segment_arr_size m /\
  unmapped_IDs m' = id :: unmapped_IDs m /\
  num_segments m' = u32 (num_segments m - 1) /\
  Z.of_nat (length (unmapped_IDs m)) < ID_arr_size m' /\
  (ID_arr_size m' = ID_arr_size m \/ ID_arr_size m' = u32 (ID_arr_size m * 2)).
Proof.
  intros H. unfold unmap_segment, grow_size in H.
  crush_ok; simpl_machine; rewrite ?Z.ltb_lt, ?Z.ltb_ge, ?negb_false_iff in *;
    repeat split; auto; lia.
Qed.

Lemma unmap_segment_wf (m m' : machine) (id : Z) :
  wf m -> id <> 0 -> mapped m id -> unmap_segment m id = Ok m' ->
  wf m' /\ ~ mapped m' id /\ (forall j, seg_array m' j = seg_array m j) /\
  unmapped_IDs m' = id :: unmapped_IDs m.
Proof.
  intros Hwf Hid0 [Hseg Hnot] H.
  destruct (unmap_segment_inv m m' id H) as
    (Hregs & Hpc & Hin & Htr & Hsegs & Hheap & Hnext & Hsize & Hpool & Hnum & Hlt & Hids).
  pose proof (wf_dom m Hwf) as Hdom.
  pose proof (wf_pool_range m Hwf) as Hrange.
  pose proof (wf_pool_nodup m Hwf) as Hnd.
  pose proof (wf_num m Hwf) as Hnum1.
  pose proof (wf_spine_cap m Hwf) as Hcap.
  pose proof (wf_spine_pow m Hwf) as (k & Hk & Hsz).
  pose proof (pow2_le_32 k Hk) as Hk31. pow_facts.
  assert (Hidr : 0 < id < slots m) by (apply Hdom in Hseg; lia).
  assert (Hpos : 1 <= slots m) by (unfold slots; lia).
  (* segment 0 and [id] are both live, so at least two segments are mapped *)
  assert (Hlen : Z.of_nat (length (0 :: id :: unmapped_IDs m)) <= slots m - 0).
  { apply nodup_range_length; [| | lia].
    - constructor; [|constructor; assumption].
      intros Hx. apply elem_of_cons in Hx as [Hx | Hx]; [lia|].
      apply Hrange in Hx. lia.
    - intros x Hx. apply elem_of_cons in Hx as [-> | Hx]; [lia|].
      apply elem_of_cons in Hx as [-> | Hx]; [lia|]. apply Hrange in Hx. lia. }
  unfold slots in Hlen, Hidr, Hcap. cbn [length] in Hlen.
  assert (Hnum' : num_segments m' = num_segments m - 1) by (rewrite Hnum; apply u32_id; lia).
  assert (Hslots : slots m' = slots m) by (unfold slots; rewrite Hnum', Hpool; cbn [length]; lia).
  split; [constructor|].
  - rewrite Hregs. apply (wf_regs m Hwf).
  - rewrite Hin. apply (wf_stdin m Hwf).
  - lia.
  - intros j. rewrite Hslots, Hsegs. apply Hdom.
  - intros j p. rewrite Hsegs, Hheap. apply (wf_arrays m Hwf).
  - rewrite Hsegs. apply (wf_inj m Hwf).
  - rewrite Hheap, Hnext. apply (wf_fresh m Hwf).
  - rewrite Hpool. constructor; assumption.
  - rewrite Hpool, Hslots. intros x Hx. apply elem_of_cons in Hx as [-> | Hx].
    + unfold slots. lia.
    + apply Hrange in Hx. exact Hx.
  - rewrite Hslots, Hsize. unfold slots. lia.
  - rewrite Hsize. eauto.
  - rewrite Hpool. cbn [length]. lia.
  - pose proof (wf_pool_pow m Hwf) as (k' & Hk' & Hp').
    destruct Hids as [Hs | Hs]; rewrite Hs; [eauto|].
    rewrite Hp' in Hs |- *. destruct (grow_pow k' Hk') as [[_ Hz] | [Hk2 Hz]].
    + rewrite Hs, Hz in Hlt. lia.
    + rewrite Hz. exists (k' + 1). split; [lia | reflexivity].
  - rewrite Hregs. apply (wf_reglen m Hwf).
  - split; [|split].
    + intros [_ Hx]. apply Hx. rewrite Hpool. left.
    + intros j. unfold seg_array. rewrite Hsegs, Hheap. reflexivity.
    + exact Hpool.
Qed.

(** *** Load program *)

Lemma hdr_ok_firstn (a : list Z) (h : Z) :
  hdr_ok a -> a !! 0%nat = Some h -> firstn (Z.to_nat (h + 1)) a = a.
Proof.
  destruct a as [|h' rest]; [contradiction|]. intros (Hl & _ & _) Hh.
  injection Hh as <-. apply firstn_all2. cbn [length]. lia.
Qed.

Lemma load_program_ok (m : machine) (B : Z) :
  wf m -> reg m B <> 0 -> is_Some (segments m !! reg m B) ->
  exists pb a p0, segments m !! reg m B = Some pb /\ heap m !! pb = Some a /\
    hdr_ok a /\ segments m !! 0 = Some p0 /\
    load_program m B =
    Ok (set_spine (set_heap m (delete p0 (<[next_addr m := a]> (heap m)))
                            (next_addr m + 1))
                  (<[0 := next_addr m]> (segments m)) (num_segments m)
                  (segment_arr_size m)).
Proof.
  intros Hwf Hb [pb Hpb].
  destruct (wf_arrays m Hwf _ _ Hpb) as (a & Ha & Hok).
  pose proof (wf_num m Hwf) as Hnum1.
  pose proof (wf_spine_cap m Hwf) as Hcap.
  assert (H0 : is_Some (segments m !! 0)) by (apply (wf_dom m Hwf); unfold slots; lia).
  destruct H0 as [p0 Hp0].
  destruct (wf_spine_ptr m 0 p0 Hwf Hp0) as [Hp0n [x Hx]].
  exists pb, a, p0. repeat split; try assumption.
  destruct a as [|h rest]; [contradiction|].
  pose proof Hok as (Hl & Hh & _).
  unfold load_program. rewrite (proj2 (Z.eqb_neq _ 0) Hb).
  unfold spine_get at 1. rewrite Hpb. cbn [bind].
  unfold heap_get. rewrite Ha. cbn [bind].
  unfold arr_get. change (0 <=? 0) with true. cbv iota.
  change ((h :: rest) !! Z.to_nat 0) with (Some h). cbn [bind].
  rewrite (u32_id (h + 1)) by (unfold word_ok in *; lia).
  unfold copy_words. rewrite (proj2 (Z.leb_le _ _)) by (cbn [length]; lia).
  rewrite (hdr_ok_firstn (h :: rest) h Hok eq_refl). cbn [bind].
  unfold malloc, spine_get. simpl_machine. rewrite Hp0. cbn [bind].
  unfold free. simpl_machine. rewrite lookup_insert_ne by lia. rewrite Hx. cbn [bind].
  unfold spine_set. simpl_machine.
  rewrite (proj2 (andb_true_iff _ _)) by (rewrite Z.leb_le, Z.ltb_lt; unfold slots in Hcap; lia).
  reflexivity.
Qed.

Lemma load_program_wf (m m' : machine) (B : Z) :
  wf m -> reg m B <> 0 -> is_Some (segments m !! reg m B) ->
  load_program m B = Ok m' ->
  wf m' /\ seg_array m' 0 = seg_array m (reg m B) /\
  (forall j, j <> 0 -> seg_array m' j = seg_array m j) /\
  (forall p0, segments m !! 0 = Some p0 -> heap m' !! p0 = None) /\
  (forall pb, segments m' !! reg m B = Some pb -> segments m' !! 0 <> Some pb) /\
  registers m' = registers m /\ unmapped_IDs m' = unmapped_IDs m.
Proof.
  intros Hwf Hb Hs H.
  destruct (load_program_ok m B Hwf Hb Hs) as (pb & a & p0 & Hpb & Ha & Hok & Hp0 & E).
  rewrite E in H. injection H as <-.
  destruct (wf_spine_ptr m 0 p0 Hwf Hp0) as [Hp0n _].
  assert (Hother : forall j pj, segments m !! j = Some pj -> j <> 0 ->
            pj <> p0 /\ pj < next_addr m).
  { intros j pj Hj Hne. split.
    - intros ->. apply Hne. apply (wf_inj m Hwf j 0 p0 Hj Hp0).
    - apply (wf_spine_ptr m j pj Hwf Hj). }
  simpl_machine. split; [constructor; simpl_machine|].
  - apply (wf_regs m Hwf).
  - apply (wf_stdin m Hwf).
  - apply (wf_num m Hwf).
  - intros j. unfold slots. simpl_machine. rewrite lookup_insert_is_Some'.
    pose proof (wf_dom m Hwf j) as Hd. pose proof (wf_dom m Hwf 0) as Hd0.
    unfold slots in Hd, Hd0. split; [intros [<- | Hj]; [apply Hd0; eauto | tauto] | tauto].
  - intros j pj Hj. destruct (decide (j = 0)) as [-> | Hne].
    + rewrite lookup_insert_eq in Hj. injection Hj as <-.
      rewrite lookup_delete_ne by lia. rewrite lookup_insert_eq. eauto.
    + rewrite lookup_insert_ne in Hj by congruence.
      destruct (Hother j pj Hj Hne).
      rewrite lookup_delete_ne by congruence. rewrite lookup_insert_ne by lia.
      apply (wf_arrays m Hwf j pj Hj).
  - intros i j q Hi Hj.
    destruct (decide (i = 0)) as [-> | Hi'];
    destruct (decide (j = 0)) as [-> | Hj']; try reflexivity.
    + rewrite lookup_insert_eq in Hi. rewrite lookup_insert_ne in Hj by congruence.
      injection Hi as <-. destruct (Hother j _ Hj Hj'). lia.
    + rewrite lookup_insert_eq in Hj. rewrite lookup_insert_ne in Hi by congruence.
      injection Hj as <-. destruct (Hother i _ Hi Hi'). lia.
    + rewrite lookup_insert_ne in Hi, Hj by congruence.
      apply (wf_inj m Hwf i j q Hi Hj).
  - intros x Hx. apply lookup_delete_is_Some in Hx as [_ Hx].
    apply lookup_insert_is_Some' in Hx as [<- | Hx]; [lia|].
    apply (wf_fresh m Hwf) in Hx. lia.
  - apply (wf_pool_nodup m Hwf).
  - apply (wf_pool_range m Hwf).
  - apply (wf_spine_cap m Hwf).
  - apply (wf_spine_pow m Hwf).
  - apply (wf_pool_cap m Hwf).
  - apply (wf_pool_pow m Hwf).
  - apply (wf_reglen m Hwf).
  - unfold seg_array. simpl_machine. split; [|split; [|split; [|split]]].
    + rewrite lookup_insert_eq, Hpb, lookup_delete_ne by lia.
      rewrite lookup_insert_eq. symmetry. exact Ha.
    + intros j Hj. rewrite lookup_insert_ne by congruence.
      destruct (segments m !! j) as [pj|] eqn:Ej; [|reflexivity].
      destruct (Hother j pj Ej Hj).
      rewrite lookup_delete_ne by congruence. rewrite lookup_insert_ne by lia.
      reflexivity.
    + intros q Hq. rewrite Hp0 in Hq. injection Hq as <-. apply lookup_delete_eq.
    + intros q Hq. rewrite lookup_insert_ne in Hq by congruence.
      rewrite lookup_insert_eq. rewrite Hpb in Hq. injection Hq as <-.
      destruct (Hother _ pb Hpb Hb). intros Heq. injection Heq. lia.
    + split; reflexivity.
Qed.

(** *** Segmented store *)

Lemma store_word_wf (m m' : machine) (id off v : Z) :
  wf m -> in_range m id off -> word_ok v -> store_word m id off v = Ok m' ->
  wf m' /\ (forall j, seg_length m' j = seg_length m j) /\
  (exists a, seg_array m id = Some a /\
     seg_array m' id = Some (<[Z.to_nat (off + 1) := v]> a)).
Proof.
  intros Hwf Hr Hv H.
  destruct (in_range_array m id off Hwf Hr) as (p' & h & rest & _ & _ & _ & Hoff).
  destruct (store_word_ok m id off v Hwf Hr) as (p & a & Hp & Ha & E).
  rewrite E in H. injection H as <-.
  assert (Hnew : hdr_ok (<[Z.to_nat (off + 1) := v]> a)).
  { destruct (wf_arrays m Hwf id p Hp) as (a0 & Ha0 & Hok).
    rewrite Ha in Ha0. injection Ha0 as <-. apply hdr_ok_insert; auto; lia. }
  split; [constructor; simpl_machine|].
  - apply (wf_regs m Hwf).
  - apply (wf_stdin m Hwf).
  - apply (wf_num m Hwf).
  - apply (wf_dom m Hwf).
  - intros j q Hj. destruct (decide (q = p)) as [-> | Hne].
    + rewrite lookup_insert_eq. eauto.
    + rewrite lookup_insert_ne by congruence. apply (wf_arrays m Hwf j q Hj).
  - apply (wf_inj m Hwf).
  - intros x Hx. apply lookup_insert_is_Some' in Hx as [<- | Hx].
    + apply (wf_fresh m Hwf). rewrite Ha. eauto.
    + apply (wf_fresh m Hwf x Hx).
  - apply (wf_pool_nodup m Hwf).
  - apply (wf_pool_range m Hwf).
  - apply (wf_spine_cap m Hwf).
  - apply (wf_spine_pow m Hwf).
  - apply (wf_pool_cap m Hwf).
  - apply (wf_pool_pow m Hwf).
  - apply (wf_reglen m Hwf).
  - split.
    + intros j. unfold seg_length, seg_array. simpl_machine.
      destruct (segments m !! j) as [q|]; [|reflexivity].
      destruct (decide (q = p)) as [-> | Hne].
      * rewrite lookup_insert_eq, Ha.
        destruct a as [|h0 r0]; [reflexivity|].
        destruct (Z.to_nat (off + 1)) as [|i] eqn:Ei; [lia|]. reflexivity.
      * rewrite lookup_insert_ne by congruence. reflexivity.
    + exists a. unfold seg_array. simpl_machine. rewrite Hp, Ha, lookup_insert_eq.
      split; reflexivity.
Qed.

(** Stores through one identifier leave an array held through another
    pointer unchanged. *)
Lemma store_word_other (m m' : machine) (id off v j : Z) :
  store_word m id off v = Ok m' -> segments m !! j <> segments m !! id ->
  seg_array m' j = seg_array m j.
Proof.
  intros H Hne. unfold store_word, spine_get in H.
  destruct (segments m !! id) as [p|] eqn:Hp; [|discriminate H].
  cbn [bind] in H. crush_ok. unfold seg_array. simpl_machine.
  destruct (segments m !! j) as [q|]; [|reflexivity].
  rewrite lookup_insert_ne by congruence. reflexivity.
Qed.

(** *** One step of the dispatch loop *)

Lemma step_inv (m m' : machine) (word : Z) :
  fetch m = Ok word -> step m = Ok (Continue m') ->
  (opcode word = 13 /\
   m' = set_pc (load_value m (Bitpack_getu word 3 25) (Bitpack_getu word 25 0))
          (u32 (program_counter m + 1))) \/
  (opcode word <> 7 /\ opcode word <> 13 /\
   exists m1, execute m (opcode word) (Bitpack_getu word 3 6) (Bitpack_getu word 3 3)
                (Bitpack_getu word 3 0) = Ok m1 /\
   m' = set_pc m1 (if opcode word =? 12 then reg m1 (Bitpack_getu word 3 0)
                   else u32 (program_counter m1 + 1))).
Proof.
  intros Hf H. unfold step in H. rewrite Hf in H. cbn [bind] in H.
  destruct (opcode word =? 7) eqn:E7; [discriminate H|].
  destruct (opcode word =? 13) eqn:E13.
  - left. apply Z.eqb_eq in E13. injection H as <-. auto.
  - right. apply Z.eqb_neq in E7, E13. split; [exact E7|]. split; [exact E13|].
    destruct (execute m (opcode word) _ _ _) as [m1|f] eqn:E; [|discriminate H].
    cbn [bind] in H. exists m1. split; [reflexivity|].
    destruct (opcode word =? 12); injection H as <-; reflexivity.
Qed.

(** *** Registers *)

Lemma Bitpack_getu_range (word width lsb : Z) :
  0 < width < 64 -> 0 <= lsb -> lsb + width <= 64 ->
  0 <= Bitpack_getu word width lsb < 2 ^ width.
Proof.
  intros Hw Hl Hh. unfold Bitpack_getu, shr.
  rewrite (proj2 (Z.eqb_neq (64 - width) 64)) by lia.
  assert (Hx : 0 <= shl word (64 - (lsb + width)) < 2 ^ 64).
  { unfold shl. destruct (_ =? 64); [lia|]. unfold u64. apply Z.mod_pos_bound. lia. }
  rewrite Z.shiftr_div_pow2 by lia. split.
  - apply Z.div_pos; [lia | apply Z.pow_pos_nonneg; lia].
  - apply Z.div_lt_upper_bound; [apply Z.pow_pos_nonneg; lia|].
    rewrite <- Z.pow_add_r by lia. replace (64 - width + width) with 64 by lia. lia.
Qed.

Lemma reg_field_range (word lsb : Z) :
  0 <= lsb <= 29 -> 0 <= Bitpack_getu word 3 lsb < 8.
Proof. intros. apply (Bitpack_getu_range word 3 lsb); lia. Qed.

Lemma reg_set_reg_eq (m : machine) (r v : Z) :
  (Z.to_nat r < length (registers m))%nat -> reg (set_reg m r v) r = v.
Proof.
  intros Hr. unfold reg, set_reg. cbn [set_registers registers].
  rewrite nth_lookup, list_lookup_insert_eq by exact Hr. reflexivity.
Qed.

Lemma seg_array_same (m m' : machine) :
  segments m' = segments m -> heap m' = heap m ->
  forall j, seg_array m' j = seg_array m j.
Proof. intros Hs Hh j. unfold seg_array. rewrite Hs, Hh. reflexivity. Qed.

Lemma seg_length_of_array (m m' : machine) (j : Z) :
  seg_array m' j = seg_array m j -> seg_length m' j = seg_length m j.
Proof. intros H. unfold seg_length. rewrite H. reflexivity. Qed.

Lemma word_mod_range (x : Z) : word_ok (x mod 4294967296).
Proof. unfold word_ok. pose proof (Z.mod_pos_bound x 4294967296). lia. Qed.

Lemma wf_same_segments (m m' : machine) :
  segments m' = segments m -> heap m' = heap m ->
  forall id, seg_length m' id = seg_length m id.
Proof. intros Hs Hh id. apply seg_length_of_array, seg_array_same; assumption. Qed.

Lemma load_program_zero (m : machine) (B : Z) :
  reg m B = 0 -> load_program m B = Ok m.
Proof. intros Hb. unfold load_program. rewrite Hb. reflexivity. Qed.

Ltac no_copy := split; intros ?; exfalso; lia.

(** The instruction bodies keep the invariant and the length words. *)
Lemma execute_wf (m m1 : machine) (word : Z) :
  wf m -> step_pre m word ->
  execute m (opcode word) (Bitpack_getu word 3 6) (Bitpack_getu word 3 3)
    (Bitpack_getu word 3 0) = Ok m1 ->
  wf m1 /\
  (forall id, mapped m id -> id <> 0 \/ opcode word <> 12 ->
     seg_length m1 id = seg_length m id) /\
  (opcode word = 12 -> seg_length m1 0 = seg_length m (reg m (Bitpack_getu word 3 3))) /\
  (opcode word = 8 ->
     seg_array m1 (reg m1 (Bitpack_getu word 3 3)) =
     Some (reg m (Bitpack_getu word 3 0) ::
           repeat 0 (Z.to_nat (reg m (Bitpack_getu word 3 0))))).
Proof.
  intros Hwf (P1 & P2 & P9 & P12) H.
  set (A := Bitpack_getu word 3 6) in *.
  set (B := Bitpack_getu word 3 3) in *.
  set (C := Bitpack_getu word 3 0) in *.
  assert (HB : 0 <= B < 8) by (apply reg_field_range; lia).
  pose proof (wf_regs m Hwf) as Hregs.
  pose proof (wf_reglen m Hwf) as Hlen.
  set (op := opcode word) in *.
  (* instructions that only write a register *)
  assert (Hreg : forall r v, word_ok v -> m1 = set_reg m r v ->
            wf m1 /\ (forall id, seg_length m1 id = seg_length m id)).
  { intros r v Hv ->. split; [apply wf_set_reg; assumption|].
    apply wf_same_segments; reflexivity. }
  unfold execute in H.
  destruct (Z.eqb_spec op 0) as [E|?].
  { unfold conditional_move in H. injection H as <-.
    destruct (negb _).
    - destruct (Hreg A (reg m B) (reg_range m B Hregs) eq_refl) as [Hw Hs].
      split; [exact Hw|]; split; [intros; apply Hs | no_copy].
    - split; [exact Hwf|]; split; [intros; reflexivity | no_copy]. }
  destruct (Z.eqb_spec op 1) as [E|?].
  { destruct (load_word_ok m (reg m B) (reg m C) Hwf (P1 E))
      as (p & a & v & _ & _ & _ & Hl & Hv).
    unfold segmented_load in H. rewrite Hl in H. cbn [bind] in H. injection H as <-.
    destruct (Hreg A v Hv eq_refl) as [Hw Hs].
    split; [exact Hw|]; split; [intros; apply Hs | no_copy]. }
  destruct (Z.eqb_spec op 2) as [E|?].
  { destruct (store_word_wf m m1 (reg m A) (reg m B) (reg m C) Hwf (P2 E)
      (reg_range m C Hregs) H) as (Hw & Hs & _).
    split; [exact Hw|]; split; [intros; apply Hs | no_copy]. }
  destruct (Z.eqb_spec op 3) as [E|?].
  { injection H as H. destruct (Hreg _ _ (word_mod_range _) (eq_sym H)) as [Hw Hs].
    split; [exact Hw|]; split; [intros; apply Hs | no_copy]. }
  destruct (Z.eqb_spec op 4) as [E|?].
  { injection H as H. destruct (Hreg _ _ (word_mod_range _) (eq_sym H)) as [Hw Hs].
    split; [exact Hw|]; split; [intros; apply Hs | no_copy]. }
  destruct (Z.eqb_spec op 5) as [E|?].
  { unfold division in H. destruct (reg m C =? 0); [discriminate H|].
    injection H as H. destruct (Hreg _ _ (word_mod_range _) (eq_sym H)) as [Hw Hs].
    split; [exact Hw|]; split; [intros; apply Hs | no_copy]. }
  destruct (Z.eqb_spec op 6) as [E|?].
  { injection H as H. destruct (Hreg _ _ (u32_range _) (eq_sym H)) as [Hw Hs].
    split; [exact Hw|]; split; [intros; apply Hs | no_copy]. }
  destruct (Z.eqb_spec op 8) as [E|?].
  { unfold map in H. destruct (map_segment m (reg m C)) as [[m2 id]|f] eqn:Hm;
      [|cbn [bind] in H; discriminate H].
    cbn [bind] in H. injection H as <-.
    destruct (map_segment_wf m m2 (reg m C) id Hwf (reg_range m C Hregs) Hm)
      as (Hw & Hid & Hnot & Hnew & Hframe).
    split; [apply wf_set_reg; [exact Hw | unfold word_ok; lia]|].
    split; [|split; [intros ?; exfalso; lia|]].
    - intros j Hj _. apply seg_length_of_array.
      unfold set_reg. rewrite <- (Hframe j) by (intros ->; contradiction).
      apply seg_array_same; reflexivity.
    - intros _. rewrite reg_set_reg_eq.
      + rewrite <- Hnew. apply seg_array_same; reflexivity.
      + rewrite (wf_reglen m2 Hw). lia. }
  destruct (Z.eqb_spec op 9) as [E|?].
  { destruct (P9 E) as [Hc Hmapped].
    destruct (unmap_segment_wf m m1 (reg m C) Hwf Hc Hmapped H) as (Hw & _ & Hs & _).
    split; [exact Hw|]; split; [intros; apply seg_length_of_array, Hs | no_copy]. }
  destruct (Z.eqb_spec op 10) as [E|?].
  { injection H as <-. split; [apply wf_output; exact Hwf|].
    split; [intros; apply wf_same_segments; reflexivity | no_copy]. }
  destruct (Z.eqb_spec op 11) as [E|?].
  { injection H as <-. split; [apply wf_input; exact Hwf|].
    split; [|no_copy].
    intros id _ _. apply wf_same_segments; unfold input;
      destruct (stdin_bytes m); reflexivity. }
  destruct (Z.eqb_spec op 12) as [E|?].
  { destruct (Z.eqb_spec (reg m B) 0) as [Hb | Hb].
    - rewrite (load_program_zero m B Hb) in H. injection H as <-. rewrite Hb.
      split; [exact Hwf|]; split; [intros; reflexivity|]; split; [intros; reflexivity | intros ?; exfalso; lia].
    - destruct (P12 E) as [Hb0 | [Hs _]]; [contradiction|].
      destruct (load_program_wf m m1 B Hwf Hb Hs H) as (Hw & H0 & Hframe & _).
      split; [exact Hw|]. split; [|split; [|intros ?; exfalso; lia]].
      + intros id _ [Hid | Hop]; [|contradiction].
        apply seg_length_of_array, Hframe, Hid.
      + intros _. unfold seg_length. rewrite H0. reflexivity. }
  injection H as <-. split; [exact Hwf|]; split; [intros; reflexivity | no_copy].
Qed.

Lemma step_wf (m m' : machine) (word : Z) :
  wf m -> fetch m = Ok word -> step_pre m word -> step m = Ok (Continue m') ->
  wf m' /\
  (forall id, mapped m id -> id <> 0 \/ opcode word <> 12 ->
     seg_length m' id = seg_length m id) /\
  (opcode word = 12 -> seg_length m' 0 = seg_length m (reg m (Bitpack_getu word 3 3))) /\
  (opcode word = 8 ->
     seg_array m' (reg m' (Bitpack_getu word 3 3)) =
     Some (reg m (Bitpack_getu word 3 0) ::
           repeat 0 (Z.to_nat (reg m (Bitpack_getu word 3 0))))).
Proof.
  intros Hwf Hf Hpre H.
  destruct (step_inv m m' word Hf H) as [[Hop ->] | (H7 & H13 & m1 & Hx & ->)].
  - unfold load_value. split.
    + apply wf_set_pc, wf_set_reg; [exact Hwf|].
      pose proof (Bitpack_getu_range word 25 0). unfold word_ok. pow_facts.
      assert (2 ^ 25 <= 2 ^ 32) by (apply Z.pow_le_mono_r; lia). lia.
    + split; [intros; apply wf_same_segments; reflexivity|].
      rewrite Hop. split; intros ?; exfalso; lia.
  - destruct (execute_wf m m1 word Hwf Hpre Hx) as (Hw & Hs & H12 & H8).
    split; [apply wf_set_pc; exact Hw|]. split; [|split].
    + intros id Hid Hne. rewrite <- (Hs id Hid Hne). apply wf_same_segments; reflexivity.
    + intros E. rewrite <- (H12 E). apply wf_same_segments; reflexivity.
    + intros E. rewrite <- (H8 E). reflexivity.
Qed.

(** *** Access indices *)

Lemma access_index (m : machine) (id off : Z) :
  wf m -> in_range m id off ->
  exists a, seg_array m id = Some a /\
    load_word m id off = Ok (nth (Z.to_nat (off + 1)) a 0) /\
    (forall v m'', store_word m id off v = Ok m'' ->
       seg_array m'' id = Some (<[Z.to_nat (off + 1) := v]> a)).
Proof.
  intros Hwf Hr.
  destruct (load_word_ok m id off Hwf Hr) as (p & a & v & Hp & Ha & Hv & Hl & _).
  exists a. split; [unfold seg_array; rewrite Hp; exact Ha|]. split.
  - rewrite Hl, nth_lookup, Hv. reflexivity.
  - intros v' m'' Hs.
    destruct (store_word_ok m id off v' Hwf Hr) as (p' & a' & Hp' & Ha' & E).
    rewrite Hp in Hp'. injection Hp' as <-. rewrite Ha in Ha'. injection Ha' as <-.
    rewrite E in Hs. injection Hs as <-. unfold seg_array. simpl_machine.
    rewrite Hp, lookup_insert_eq. reflexivity.
Qed.

Lemma fetch_index (m : machine) (word h : Z) :
  fetch m = Ok word -> seg_length m 0 = Some h -> 0 <= program_counter m < h ->
  h < 2 ^ 32 - 1 ->
  exists a, seg_array m 0 = Some a /\ a !! Z.to_nat (program_counter m + 1) = Some word.
Proof.
  intros Hf Hh Hpc Hb. unfold fetch, spine_get, heap_get, arr_get, seg_length, seg_array in *.
  destruct (segments m !! 0) as [p|]; [|discriminate Hf]. cbn [bind] in Hf.
  destruct (heap m !! p) as [a|]; [|discriminate Hf]. cbn [bind] in Hf.
  exists a. split; [reflexivity|].
  rewrite (u32_id (program_counter m + 1)) in Hf by (pow_facts; lia).
  rewrite (proj2 (Z.leb_le 0 _)) in Hf by lia.
  destruct (a !! _) as [v|]; [injection Hf as ->; reflexivity | discriminate Hf].
Qed.

(** *** Initial machines *)

Lemma wf_machine_of (prog stdin : list Z) :
  Forall word_ok prog -> Z.of_nat (length prog) < 2 ^ 32 - 1 ->
  Forall (fun b => 0 <= b < 256) stdin ->
  wf (machine_of prog stdin).
Proof.
  intros Hp Hl Hs. unfold machine_of, new_UM, set_io.
  constructor; cbn [registers stdin_bytes num_segments segments heap next_addr
                    unmapped_IDs segment_arr_size ID_arr_size].
  - apply Forall_forall. intros x Hx. apply list_elem_of_In, repeat_spec in Hx.
    subst. unfold word_ok. lia.
  - exact Hs.
  - lia.
  - intros id. unfold slots. cbn [num_segments unmapped_IDs length].
    destruct (decide (id = 0)) as [-> | Hne].
    + rewrite lookup_singleton_eq. split; [lia | eauto].
    + rewrite lookup_singleton_ne by congruence. split; [intros [? Hx]; discriminate Hx | lia].
  - intros id p Hid. destruct (decide (id = 0)) as [-> | Hne].
    + rewrite lookup_singleton_eq in Hid. injection Hid as <-.
      rewrite lookup_singleton_eq. eexists; split; [reflexivity|].
      split; [reflexivity|]. split; [lia|]. constructor; [|exact Hp].
      unfold word_ok. lia.
    + rewrite lookup_singleton_ne in Hid by congruence. discriminate Hid.
  - intros i j p Hi Hj.
    destruct (decide (i = 0)) as [-> | Hi']; [|rewrite lookup_singleton_ne in Hi by congruence; discriminate Hi].
    destruct (decide (j = 0)) as [-> | Hj']; [reflexivity|].
    rewrite lookup_singleton_ne in Hj by congruence. discriminate Hj.
  - intros p Hp'. destruct (decide (p = 0)) as [-> | Hne]; [lia|].
    rewrite lookup_singleton_ne in Hp' by congruence. destruct Hp' as [? Hx]. discriminate Hx.
  - constructor.
  - intros id Hid. inversion Hid.
  - unfold slots. cbn. lia.
  - exists 0. split; [lia | reflexivity].
  - cbn. lia.
  - exists 0. split; [lia | reflexivity].
  - reflexivity.
Qed.

(** ** The length word (claim C8) *)

(** Claim C8: under the spec's in-range preconditions, every step keeps the
    representation invariant: each mapped segment's array starts with its
    length word; accesses at offset [o] use index [o + 1]; no instruction
    changes the length word of a mapped segment other than the copy into
    segment 0 by Load Program, which copies the source's length word, and
    Map writes the requested length into the new array's cell 0. *)
Theorem step_keeps_length_words (m m' : machine) (word : Z) :
  wf m -> fetch m = Ok word -> step_pre m word -> step m = Ok (Continue m') ->
  (forall id, mapped m' id ->
     exists h rest, seg_array m' id = Some (h :: rest) /\ Z.of_nat (length rest) = h) /\
  (forall id off, in_range m id off ->
     exists a, seg_array m id = Some a /\
       load_word m id off = Ok (nth (Z.to_nat (off + 1)) a 0) /\
       (forall v m'', store_word m id off v = Ok m'' ->
          seg_array m'' id = Some (<[Z.to_nat (off + 1) := v]> a))) /\
  (forall h, seg_length m 0 = Some h -> 0 <= program_counter m < h ->
     exists a, seg_array m 0 = Some a /\
       a !! Z.to_nat (program_counter m + 1) = Some word) /\
  (forall id, mapped m id -> id <> 0 \/ opcode word <> 12 ->
     seg_length m' id = seg_length m id) /\
  (opcode word = 12 -> seg_length m' 0 = seg_length m (reg m (Bitpack_getu word 3 3))) /\
  (opcode word = 8 ->
     seg_length m' (reg m' (Bitpack_getu word 3 3)) = Some (reg m (Bitpack_getu word 3 0))).
Proof.
  intros Hwf Hf Hpre H.
  destruct (step_wf m m' word Hwf Hf Hpre H) as (Hw & Hs & H12 & H8).
  split; [|split; [|split; [|split; [exact Hs | split; [exact H12|]]]]].
  - intros id [[p Hp] _]. destruct (wf_arrays m' Hw id p Hp) as (a & Ha & Hok).
    destruct a as [|h rest]; [contradiction|]. destruct Hok as (Hl & _).
    exists h, rest. unfold seg_array. rewrite Hp, Ha. auto.
  - intros id off Hr. apply (access_index m id off Hwf Hr).
  - intros h Hh Hpc. apply (fetch_index m word h Hf Hh Hpc).
    unfold seg_length, seg_array in Hh.
    destruct (segments m !! 0) as [p|] eqn:Hp; [|discriminate Hh].
    destruct (wf_arrays m Hwf 0 p Hp) as (a & Ha & Hok). rewrite Ha in Hh.
    destruct a as [|h' rest]; [contradiction|]. injection Hh as <-. apply Hok.
  - intros E. unfold seg_length. rewrite (H8 E). reflexivity.
Qed.

Lemma words_ok_check (l : list Z) :
  forallb (fun x => (0 <=? x) && (x <? 2 ^ 32)) l = true -> Forall word_ok l.
Proof.
  induction l as [|x l IH]; cbn [forallb]; intros H; [constructor|].
  apply andb_true_iff in H as [Hx Hl]. apply andb_true_iff in Hx as [H0 H1].
  constructor; [unfold word_ok; apply Z.leb_le in H0; apply Z.ltb_lt in H1; lia | auto].
Qed.

(** The map of an empty segment, [map R[0] (size R[0] = 0) into R[1]]. *)
Definition prog_map : list Z := [0x80000008; 0x70000000].

Lemma step_keeps_length_words_witness :
  exists m',
  (wf (machine_of prog_map []) /\ fetch (machine_of prog_map []) = Ok 0x80000008 /\
   step_pre (machine_of prog_map []) 0x80000008 /\
   step (machine_of prog_map []) = Ok (Continue m')) /\
  seg_length m' (reg m' 1) = Some 0 /\ reg m' 1 = 1.
Proof.
  eexists. assert (Hstep : step (machine_of prog_map []) = Ok (Continue
    (set_pc (set_reg (set_spine (set_heap (machine_of prog_map [])
       (<[1 := [0]]> (heap (machine_of prog_map []))) 2)
       (<[1 := 1]> (segments (machine_of prog_map []))) 2 2) 1 1) 1)))
    by (vm_compute; reflexivity).
  assert (Hwf : wf (machine_of prog_map []))
    by (apply wf_machine_of; [apply words_ok_check; reflexivity | vm_compute; reflexivity | constructor]).
  assert (Hpre : step_pre (machine_of prog_map []) 0x80000008)
    by (unfold step_pre; split; [|split; [|split]]; intros Hc; vm_compute in Hc; discriminate Hc).
  split; [split; [exact Hwf | split; [reflexivity | split; [exact Hpre | exact Hstep]]]|].
  destruct (step_keeps_length_words _ _ 0x80000008 Hwf eq_refl Hpre Hstep)
    as (_ & _ & _ & _ & _ & H8).
  split; [exact (H8 eq_refl) | reflexivity].
Defined.

(** ** Store then load (claim C6) *)

(** Claim C6: when [R[A]] names a mapped segment and [R[B]] is an offset
    below its length, a Segmented Store of [R[C]] succeeds, and a Segmented
    Load through registers holding the same identifier and offset then
    reads back [R[C]]. *)
Theorem store_then_load (m : machine) (A B C A' B' C' : Z) :
  wf m -> in_range m (reg m A) (reg m B) ->
  reg m B' = reg m A -> reg m C' = reg m B -> 0 <= A' < 8 ->
  exists m1 m2, segmented_store m A B C = Ok m1 /\
    segmented_load m1 A' B' C' = Ok m2 /\ reg m2 A' = reg m C.
Proof.
  intros Hwf Hr HB HC HA.
  destruct (store_word_ok m (reg m A) (reg m B) (reg m C) Hwf Hr) as (p & a & Hp & Ha & E).
  destruct (in_range_array m _ _ Hwf Hr) as (p' & h & rest & Hp' & Ha' & Hok & Hoff).
  rewrite Hp in Hp'. injection Hp' as <-. rewrite Ha in Ha'. injection Ha' as Ea. subst a.
  destruct Hok as (Hl & Hh & _).
  set (m1 := set_heap m (<[p := <[Z.to_nat (reg m B + 1) := reg m C]> (h :: rest)]> (heap m)) (next_addr m)).
  exists m1, (set_reg m1 A' (reg m C)). split; [exact E|]. split.
  - unfold segmented_load, load_word, spine_get, heap_get, arr_get.
    change (reg m1) with (reg m). rewrite HB, HC.
    unfold m1. simpl_machine. rewrite Hp. cbn [bind]. rewrite lookup_insert_eq. cbn [bind].
    rewrite (u32_id (reg m B + 1)) by (pow_facts; lia).
    rewrite (proj2 (Z.leb_le 0 _)) by lia.
    rewrite list_lookup_insert_eq by (cbn [length]; lia). reflexivity.
  - apply reg_set_reg_eq. unfold m1. simpl_machine. rewrite (wf_reglen m Hwf). lia.
Qed.

(** [R[1] := 0] names segment 0 at offset 0 and [R[2] := 42] is stored. *)
Definition machine_store_load : machine :=
  set_reg (machine_of [0x70000000] []) 2 42.

Lemma store_then_load_witness :
  exists m1 m2,
  (wf machine_store_load /\
   in_range machine_store_load (reg machine_store_load 0) (reg machine_store_load 1) /\
   reg machine_store_load 0 = reg machine_store_load 0 /\
   reg machine_store_load 1 = reg machine_store_load 1 /\ 0 <= 3 < 8) /\
  segmented_store machine_store_load 0 1 2 = Ok m1 /\
  segmented_load m1 3 0 1 = Ok m2 /\ reg m2 3 = 42.
Proof.
  assert (Hwf : wf machine_store_load).
  { apply wf_set_reg; [|unfold word_ok; pow_facts; lia].
    apply wf_machine_of; [apply words_ok_check; reflexivity | vm_compute; reflexivity | constructor]. }
  assert (Hr : in_range machine_store_load (reg machine_store_load 0) (reg machine_store_load 1)).
  { split; [split; [eexists; reflexivity | intros Hx; inversion Hx]|].
    exists 1. split; [reflexivity | change (reg machine_store_load 1) with 0; lia]. }
  destruct (store_then_load machine_store_load 0 1 2 3 0 1 Hwf Hr eq_refl eq_refl)
    as (m1 & m2 & H1 & H2 & H3); [lia|].
  exists m1, m2. split; [split; [exact Hwf|]; split; [exact Hr|]; split; [reflexivity|]; split; [reflexivity | lia]|].
  split; [exact H1|]. split; [exact H2|]. rewrite H3. reflexivity.
Defined.

(** ** Load Program (claim C2) *)

(** Claim C2: Load Program with [R[B] = 0] only sets the program counter to
    [R[C]]; with a mapped [R[B] <> 0] it makes segment 0 a copy of segment
    [R[B]] held in a fresh array, frees the old array of segment 0, and sets
    the program counter to [R[C]]; afterwards a store through either
    identifier leaves the other segment unchanged. *)
Theorem load_program_step (m : machine) (word : Z) :
  wf m -> fetch m = Ok word -> opcode word = 12 ->
  reg m (Bitpack_getu word 3 3) = 0 \/ mapped m (reg m (Bitpack_getu word 3 3)) ->
  exists m', step m = Ok (Continue m') /\
    program_counter m' = reg m (Bitpack_getu word 3 0) /\
    registers m' = registers m /\
    (reg m (Bitpack_getu word 3 3) = 0 -> m' = set_pc m (reg m (Bitpack_getu word 3 0))) /\
    (reg m (Bitpack_getu word 3 3) <> 0 ->
       seg_array m' 0 = seg_array m (reg m (Bitpack_getu word 3 3)) /\
       (forall j, j <> 0 -> seg_array m' j = seg_array m j) /\
       (forall p0, segments m !! 0 = Some p0 -> heap m' !! p0 = None) /\
       (forall off v m'', store_word m' (reg m (Bitpack_getu word 3 3)) off v = Ok m'' ->
          seg_array m'' 0 = seg_array m' 0) /\
       (forall off v m'', store_word m' 0 off v = Ok m'' ->
          seg_array m'' (reg m (Bitpack_getu word 3 3)) =
          seg_array m' (reg m (Bitpack_getu word 3 3)))).
Proof.
  intros Hwf Hf Hop Hpre.
  unfold step. rewrite Hf. cbn [bind]. rewrite Hop. cbn [Z.eqb Pos.eqb].
  unfold execute. cbn [Z.eqb Pos.eqb].
  set (B := Bitpack_getu word 3 3) in *. set (C := Bitpack_getu word 3 0) in *.
  destruct (Z.eqb_spec (reg m B) 0) as [Hb | Hb].
  - rewrite (load_program_zero m B Hb). cbn [bind].
    eexists. split; [reflexivity|].
    split; [reflexivity|]. split; [reflexivity|]. split; [reflexivity | contradiction].
  - destruct Hpre as [Hb0 | [Hs _]]; [contradiction|].
    pose proof Hs as [pb Hpb].
    destruct (load_program_ok m B Hwf Hb Hs) as (pb' & a & p0 & _ & _ & _ & _ & E).
    pose proof E as E'. rewrite E. cbn [bind].
    eexists. split; [reflexivity|].
    destruct (load_program_wf m _ B Hwf Hb Hs E') as (Hw & H0 & Hframe & Hfree & Hsep & _).
    split; [reflexivity|]. split; [reflexivity|]. split; [contradiction|]. intros _.
    set (M := set_spine _ _ _ _) in *.
    assert (HbM : segments M !! reg m B = Some pb).
    { unfold M. simpl_machine. rewrite lookup_insert_ne by congruence. exact Hpb. }
    split; [exact H0|]. split; [exact Hframe|]. split; [exact Hfree|]. split.
    + intros off v m'' Hst. apply (store_word_other _ m'' (reg m B) off v 0 Hst).
      cbn [set_pc segments]. rewrite HbM. apply (Hsep pb HbM).
    + intros off v m'' Hst. apply (store_word_other _ m'' 0 off v (reg m B) Hst).
      cbn [set_pc segments]. rewrite HbM. intros Heq. apply (Hsep pb HbM). congruence.
Qed.

(** Map an empty segment into [R[1]], then Load Program [R[1]] with
    [R[C] = R[0] = 0]. *)
Definition prog_load : list Z := [0x80000008; 0xC0000008; 0x70000000].

(** The machine after the first instruction of [prog_load]. *)
Definition machine_load : machine :=
  set_pc (set_reg (set_spine (set_heap (machine_of prog_load [])
      (<[1 := [0]]> (heap (machine_of prog_load []))) 2)
    (<[1 := 1]> (segments (machine_of prog_load []))) 2 2) 1 1) 1.

Lemma wf_machine_load : wf machine_load.
Proof.
  assert (Hwf : wf (machine_of prog_load []))
    by (apply wf_machine_of; [apply words_ok_check; reflexivity | vm_compute; reflexivity | constructor]).
  assert (Hpre : step_pre (machine_of prog_load []) 0x80000008)
    by (unfold step_pre; split; [|split; [|split]]; intros Hc; vm_compute in Hc; discriminate Hc).
  assert (Hstep : step (machine_of prog_load []) = Ok (Continue machine_load))
    by (vm_compute; reflexivity).
  apply (step_wf _ _ 0x80000008 Hwf eq_refl Hpre Hstep).
Qed.

Lemma load_program_step_witness :
  exists m',
  (wf machine_load /\ fetch machine_load = Ok 0xC0000008 /\ opcode 0xC0000008 = 12 /\
   (reg machine_load 1 = 0 \/ mapped machine_load (reg machine_load 1))) /\
  step machine_load = Ok (Continue m') /\ program_counter m' = 0 /\
  seg_array m' 0 = Some [0] /\ heap m' !! 0 = None.
Proof.
  assert (Hmap : mapped machine_load (reg machine_load 1))
    by (split; [eexists; reflexivity | intros Hx; inversion Hx]).
  destruct (load_program_step machine_load 0xC0000008 wf_machine_load eq_refl eq_refl
              (or_intror Hmap)) as (m' & Hs & Hpc & _ & _ & Hcopy).
  destruct (Hcopy ltac:(discriminate)) as (H0 & _ & Hfree & _).
  exists m'. split; [split; [exact wf_machine_load|]; split; [reflexivity|];
                  split; [reflexivity | right; exact Hmap]|].
  split; [exact Hs|]. split; [exact Hpc|]. split; [exact H0 | apply Hfree; reflexivity].
Defined.

(** ** Map (claim C1) *)

(** For a size below [2^32 - 1], map hands out the top of the
    free-identifier stack, freeing the array left by its previous occupant,
    or else the identifier one past the highest live one; the identifier is
    never 0 and names a fresh array of zeros headed by the size. *)
Lemma map_segment_spec (m m' : machine) (n id : Z) :
  wf m -> word_ok n -> map_segment m n = Ok (m', id) ->
  0 < id /\ seg_array m' id = Some (n :: repeat 0 (Z.to_nat n)) /\
  (forall j, j <> id -> seg_array m' j = seg_array m j) /\
  match unmapped_IDs m with
  | [] => mapped m (id - 1) /\ (forall j, mapped m j -> j < id)
  | r :: rest => id = r /\ unmapped_IDs m' = rest /\
      forall p, segments m !! r = Some p -> heap m' !! p = None
  end.
Proof.
  intros Hwf Hn H.
  destruct (map_segment_wf m m' n id Hwf Hn H) as (_ & Hid & _ & Hnew & Hframe).
  destruct (map_segment_inv m m' n id Hn H) as
    (_ & _ & _ & _ & _ & _ & _ & _ & Hcase).
  split; [lia|]. split; [exact Hnew|]. split; [exact Hframe|].
  pose proof (wf_spine_cap m Hwf) as Hcap.
  pose proof (wf_spine_pow m Hwf) as (k & Hk & Hsize).
  pose proof (pow2_le_32 k Hk) as Hk31.
  pose proof (wf_num m Hwf) as Hnum1.
  pose proof (wf_dom m Hwf) as Hdom. pow_facts.
  destruct Hcase as [(Hpool & Hid' & _) | (rest & p & Hpool & Hpool' & Hp & _ & _ & _ & Hheap & _)].
  - rewrite Hpool. unfold slots in Hcap, Hdom. rewrite Hpool in Hcap, Hdom.
    cbn [length] in Hcap, Hdom.
    rewrite (u32_id (num_segments m + 1)), (u32_id (num_segments m + 1 - 1)) in Hid' by lia.
    split.
    + split; [apply Hdom; lia | rewrite Hpool; intros Hx; inversion Hx].
    + intros j [Hj _]. apply Hdom in Hj. lia.
  - rewrite Hpool. split; [reflexivity|]. split; [exact Hpool'|].
    intros q Hq. rewrite Hp in Hq. injection Hq as <-. rewrite Hheap.
    apply lookup_delete_eq.
Qed.

(** Claim C1 (code defect): for a size of [0xFFFFFFFF] words, the count
    [num_words + 1] passed to [calloc] wraps to 0, and the write of the
    length word into cell 0 of the empty allocation is undefined behaviour;
    no segment is installed. *)
Theorem map_segment_max_size_undefined (m : machine) :
  map_segment m 0xFFFFFFFF = Fault Undefined_behaviour.
Proof.
  unfold map_segment, malloc, heap_get. simpl_machine.
  rewrite lookup_insert_eq. reflexivity.
Qed.

(** ** Loading the program file (claim C5) *)

Lemma lor_disjoint (a b k : Z) :
  0 <= k -> 0 <= a < 2 ^ k -> 0 <= b -> Z.lor a (b * 2 ^ k) = a + b * 2 ^ k.
Proof.
  intros Hk Ha Hb.
  assert (Hland : Z.land a (b * 2 ^ k) = 0).
  { apply Z.bits_inj'. intros i Hi. rewrite Z.land_spec, Z.bits_0.
    destruct (Z.lt_ge_cases i k) as [Hlt | Hge].
    - rewrite <- Z.shiftl_mul_pow2 by lia. rewrite Z.shiftl_spec_low by lia.
      apply andb_false_r.
    - destruct (Z.eq_dec a 0) as [-> | Hne]; [rewrite Z.bits_0; reflexivity|].
      rewrite (Z.bits_above_log2 a i); [reflexivity | lia |].
      assert (Z.log2 a < k) by (apply Z.log2_lt_pow2; lia). lia. }
  rewrite <- Z.lxor_lor by exact Hland.
  symmetry. apply Z.add_nocarry_lxor. exact Hland.
Qed.

Lemma Bitpack_newu_byte (x lsb v : Z) :
  0 <= lsb <= 24 -> 0 <= x -> x * 2 ^ (lsb + 8) < 2 ^ 32 -> 0 <= v < 256 ->
  Bitpack_newu (x * 2 ^ (lsb + 8)) 8 lsb (u64 v) = Ok (x * 2 ^ (lsb + 8) + v * 2 ^ lsb).
Proof.
  intros Hl Hx Hw Hv.
  assert (H64 : 2 ^ 64 = 2 ^ 32 * 2 ^ 32) by reflexivity.
  assert (H32 : 2 ^ 32 = 4294967296) by reflexivity.
  assert (Hp : 0 < 2 ^ lsb) by (apply Z.pow_pos_nonneg; lia).
  assert (Hp8 : 2 ^ (lsb + 8) = 2 ^ lsb * 256) by (rewrite Z.pow_add_r by lia; reflexivity).
  assert (Hpl : 2 ^ lsb <= 2 ^ 24) by (apply Z.pow_le_mono_r; lia).
  assert (Hu : u64 v = v) by (unfold u64; apply Z.mod_small; lia).
  unfold Bitpack_newu, Bitpack_fitsu, shl, shr. rewrite Hu.
  rewrite (proj2 (Z.leb_le 8 64)) by lia. cbn [negb].
  rewrite (proj2 (Z.leb_le (lsb + 8) 64)) by lia. cbn [negb].
  rewrite (proj2 (Z.eqb_neq 8 64)) by lia.
  rewrite Z.shiftr_div_pow2 by lia. rewrite (Z.div_small v) by (cbn; lia). cbn [Z.eqb negb].
  rewrite (proj2 (Z.eqb_neq (lsb + 8) 64)) by lia.
  rewrite Z.shiftr_div_pow2, Z.div_mul by lia.
  rewrite Z.shiftl_mul_pow2 by lia.
  assert (Hhigh : u64 (x * 2 ^ (lsb + 8)) = x * 2 ^ (lsb + 8))
    by (unfold u64; apply Z.mod_small; nia).
  rewrite Hhigh.
  replace (if 64 - lsb =? 64 then 0 else
            Z.shiftr (if 64 - lsb =? 64 then 0 else u64 (Z.shiftl (x * 2 ^ (lsb + 8)) (64 - lsb)))
              (64 - lsb)) with 0.
  2:{ destruct (Z.eqb_spec (64 - lsb) 64) as [E | E]; [reflexivity|].
      rewrite Z.shiftl_mul_pow2 by lia. unfold u64.
      replace (x * 2 ^ (lsb + 8) * 2 ^ (64 - lsb)) with ((x * 2 ^ 8) * 2 ^ 64).
      - rewrite Z.mod_mul by lia. rewrite Z.shiftr_0_l. reflexivity.
      - rewrite <- !Z.mul_assoc, <- !Z.pow_add_r by lia. f_equal. f_equal. lia. }
  rewrite Z.lor_0_r. rewrite Z.shiftl_mul_pow2 by lia.
  assert (Hnew : u64 (v * 2 ^ lsb) = v * 2 ^ lsb) by (unfold u64; apply Z.mod_small; nia).
  rewrite Hnew. rewrite Z.lor_comm, lor_disjoint by nia. f_equal. ring.
Qed.

(** *** Decoding four bytes *)

Definition byte_ok (b : Z) : Prop := 0 <= b < 256.

(** The spec's decoding of a group [b0 b1 b2 b3]. *)
Definition be_word (b0 b1 b2 b3 : Z) : Z :=
  Z.lor (Z.lor (Z.lor (Z.shiftl b0 24) (Z.shiftl b1 16)) (Z.shiftl b2 8)) b3.

(** The spec's word sequence of a file, one word per 4-byte group. *)
Fixpoint be_words (fp : list Z) : list Z :=
  match fp with
  | b0 :: b1 :: b2 :: b3 :: rest => be_word b0 b1 b2 b3 :: be_words rest
  | _ => []
  end.

Lemma be_word_sum (b0 b1 b2 b3 : Z) :
  byte_ok b0 -> byte_ok b1 -> byte_ok b2 -> byte_ok b3 ->
  be_word b0 b1 b2 b3 = b0 * 16777216 + b1 * 65536 + b2 * 256 + b3.
Proof.
  unfold byte_ok, be_word. intros H0 H1 H2 H3.
  rewrite !Z.shiftl_mul_pow2 by lia.
  rewrite (Z.lor_comm (b0 * 2 ^ 24)), (lor_disjoint (b1 * 2 ^ 16) b0 24) by (cbn; lia).
  replace (b1 * 2 ^ 16 + b0 * 2 ^ 24) with ((b0 * 256 + b1) * 2 ^ 16) by (cbn; lia).
  rewrite (Z.lor_comm ((b0 * 256 + b1) * 2 ^ 16)),
    (lor_disjoint (b2 * 2 ^ 8) (b0 * 256 + b1) 16) by (cbn; lia).
  replace (b2 * 2 ^ 8 + (b0 * 256 + b1) * 2 ^ 16) with ((b0 * 65536 + b1 * 256 + b2) * 2 ^ 8)
    by (cbn; lia).
  rewrite (Z.lor_comm ((b0 * 65536 + b1 * 256 + b2) * 2 ^ 8)),
    (lor_disjoint b3 (b0 * 65536 + b1 * 256 + b2) 8) by (cbn; lia).
  cbn. lia.
Qed.

Lemma pack_loop_group (b0 b1 b2 b3 : Z) (r : list Z) :
  byte_ok b0 -> byte_ok b1 -> byte_ok b2 -> byte_ok b3 ->
  pack_loop 4 0 b0 (b1 :: b2 :: b3 :: r) =
  Ok (be_word b0 b1 b2 b3, fst (fgetc r), snd (fgetc r)).
Proof.
  intros H0 H1 H2 H3. rewrite be_word_sum by assumption.
  unfold byte_ok in *.
  cbn [pack_loop fgetc].
  change (Z.of_nat 3 * 8) with 24. change (Z.of_nat 2 * 8) with 16.
  change (Z.of_nat 1 * 8) with 8. change (Z.of_nat 0 * 8) with 0.
  pose proof (Bitpack_newu_byte 0 24 b0) as E1.
  rewrite Z.mul_0_l, Z.add_0_l in E1. rewrite E1 by (cbn; lia). cbn [bind].
  rewrite (u32_id (b0 * 2 ^ 24)) by (cbn; lia).
  pose proof (Bitpack_newu_byte b0 16 b1) as E2.
  change (2 ^ (16 + 8)) with (2 ^ 24) in E2. rewrite E2 by (cbn; lia). cbn [bind].
  rewrite (u32_id (b0 * 2 ^ 24 + b1 * 2 ^ 16)) by (cbn; lia).
  pose proof (Bitpack_newu_byte (b0 * 256 + b1) 8 b2) as E3.
  replace ((b0 * 256 + b1) * 2 ^ (8 + 8)) with (b0 * 2 ^ 24 + b1 * 2 ^ 16) in E3 by (cbn; lia).
  rewrite E3 by (cbn; lia). cbn [bind].
  rewrite (u32_id (b0 * 2 ^ 24 + b1 * 2 ^ 16 + b2 * 2 ^ 8)) by (cbn; lia).
  pose proof (Bitpack_newu_byte (b0 * 65536 + b1 * 256 + b2) 0 b3) as E4.
  replace ((b0 * 65536 + b1 * 256 + b2) * 2 ^ (0 + 8))
    with (b0 * 2 ^ 24 + b1 * 2 ^ 16 + b2 * 2 ^ 8) in E4 by (cbn; lia).
  rewrite E4 by (cbn; lia). cbn [bind].
  destruct (fgetc r) as [c r'].
  rewrite (u32_id (b0 * 2 ^ 24 + b1 * 2 ^ 16 + b2 * 2 ^ 8 + b3 * 2 ^ 0)) by (cbn; lia).
  cbn [pack_loop fst snd]. f_equal. f_equal. f_equal. cbn. lia.
Qed.

(** *** The read loop *)

Lemma read_loop_group (fuel : nat) (b0 b1 b2 b3 : Z) (r cells : list Z) (size num : Z) :
  byte_ok b0 -> byte_ok b1 -> byte_ok b2 -> byte_ok b3 ->
  read_loop (S fuel) b0 (b1 :: b2 :: b3 :: r) cells size num =
  bind (append_word cells size num (be_word b0 b1 b2 b3)) (fun c =>
    let '(cells', size') := c in
    read_loop fuel (fst (fgetc r)) (snd (fgetc r)) cells' size' (u32 (num + 1))).
Proof.
  intros H0 H1 H2 H3. cbn [read_loop].
  rewrite (proj2 (Z.eqb_neq b0 EOF)) by (unfold EOF, byte_ok in *; lia).
  rewrite pack_loop_group by assumption. cbn [bind].
  destruct (fgetc r). reflexivity.
Qed.

(** The buffer holds [100 * 2^j] words, one more than the words read so far
    at least, as long as fewer than [100 * 2^25] words have been read. *)
Lemma read_loop_prefix (k : nat) :
  forall (r t cells : list Z) (j num : Z) (extra : nat),
  Forall byte_ok r -> length r = (4 * k)%nat -> 0 <= j <= 25 -> 0 <= num < 100 * 2 ^ j ->
  num + Z.of_nat k < 100 * 2 ^ 25 ->
  exists j', 0 <= j' <= 25 /\ num + Z.of_nat k < 100 * 2 ^ j' /\
    read_loop (k + S extra) (fst (fgetc (r ++ t))) (snd (fgetc (r ++ t))) cells
      (100 * 2 ^ j) num =
    read_loop (S extra) (fst (fgetc t)) (snd (fgetc t)) (cells ++ be_words r)
      (100 * 2 ^ j') (num + Z.of_nat k).
Proof.
  induction k as [|k IH]; intros r t cells j num extra Hr Hlen Hj Hnum Hbound.
  - destruct r; [|discriminate Hlen].
    exists j. rewrite app_nil_r, Z.add_0_r. split; [exact Hj|]. split; [lia | reflexivity].
  - destruct r as [|b0 [|b1 [|b2 [|b3 r]]]]; cbn [length] in Hlen; try lia.
    apply Forall_cons in Hr as [H0 Hr]. apply Forall_cons in Hr as [H1 Hr].
    apply Forall_cons in Hr as [H2 Hr]. apply Forall_cons in Hr as [H3 Hr].
    assert (Hlen' : length r = (4 * k)%nat) by lia.
    change ((b0 :: b1 :: b2 :: b3 :: r) ++ t) with (b0 :: b1 :: b2 :: b3 :: (r ++ t)).
    cbn [fgetc fst snd]. change (S k + S extra)%nat with (S (k + S extra)).
    rewrite read_loop_group by assumption.
    assert (H25 : 2 ^ 25 = 33554432) by reflexivity.
    assert (Hpj : 0 < 2 ^ j) by (apply Z.pow_pos_nonneg; lia).
    assert (Hjle : 2 ^ j <= 2 ^ 25) by (apply Z.pow_le_mono_r; lia).
    unfold append_word.
    rewrite (u32_id (num + 1)) by (cbn; lia).
    destruct (Z.eqb_spec (num + 1) (100 * 2 ^ j)) as [Heq | Hne].
    + (* the buffer doubles *)
      assert (Hj25 : j < 25).
      { destruct (Z.eq_dec j 25) as [-> | ?]; [lia | lia]. }
      assert (Hdbl : u32 (100 * 2 ^ j * 2) = 100 * 2 ^ (j + 1)).
      { rewrite Z.pow_add_r by lia.
        assert (2 ^ j <= 2 ^ 24) by (apply Z.pow_le_mono_r; lia).
        assert (2 ^ 24 = 16777216) by reflexivity.
        rewrite u32_id; cbn; lia. }
      rewrite Hdbl. rewrite (proj2 (Z.ltb_lt _ _)) by (rewrite Z.pow_add_r by lia; lia).
      cbn [bind].
      destruct (IH r t (cells ++ [be_word b0 b1 b2 b3]) (j + 1) (num + 1) extra Hr Hlen')
        as (j' & Hj' & Hlt & E); [lia | rewrite Z.pow_add_r by lia; lia | lia |].
      exists j'. split; [exact Hj'|]. split; [lia|].
      rewrite E. cbn [be_words]. rewrite <- app_assoc. cbn [app].
      f_equal. lia.
    + rewrite (proj2 (Z.ltb_lt _ _)) by lia.
      cbn [bind].
      destruct (IH r t (cells ++ [be_word b0 b1 b2 b3]) j (num + 1) extra Hr Hlen')
        as (j' & Hj' & Hlt & E); [lia | lia | lia |].
      exists j'. split; [exact Hj'|]. split; [lia|].
      rewrite E. cbn [be_words]. rewrite <- app_assoc. cbn [app].
      f_equal. lia.
Qed.

Lemma read_loop_eof (fuel : nat) (fp cells : list Z) (size num : Z) :
  read_loop (S fuel) EOF fp cells size num = Ok (cells, num).
Proof. reflexivity. Qed.

(** Files of fewer than [100 * 2^25] groups of four bytes load as the spec
    says: segment 0 holds the decoded words in file order, the program
    counter is 0. *)
Lemma read_program_file_ok (fp : list Z) (k : nat) :
  Forall byte_ok fp -> length fp = (4 * k)%nat -> Z.of_nat k < 100 * 2 ^ 25 ->
  read_program_file fp = Ok (new_UM 0 {[0 := Z.of_nat k :: be_words fp]} 1).
Proof.
  intros Hfp Hlen Hk.
  destruct (read_loop_prefix k fp [] [] 0 0 (3 * k) Hfp Hlen) as (j' & _ & _ & E);
    [lia | cbn; lia | lia |].
  rewrite app_nil_r in E. change (100 * 2 ^ 0) with 100 in E.
  unfold read_program_file. destruct (fgetc fp) as [b f] eqn:Ef.
  cbn [fst snd fgetc] in E.
  rewrite Hlen. replace (S (4 * k)) with (k + S (3 * k))%nat by lia.
  rewrite E, read_loop_eof. cbn [bind app]. reflexivity.
Qed.

(** At [num_elems + 1 = segment_size = 100 * 2^25] the [uint32_t] product
    [segment_size * 2] wraps to [2415919104], the buffer shrinks, and the
    write at index [100 * 2^25] is out of bounds. *)
Lemma append_word_overflow (cells : list Z) (w : Z) :
  append_word cells 3355443200 3355443199 w = Fault Undefined_behaviour.
Proof. reflexivity. Qed.

(** Claim C5 (code defect): a file of [100 * 2^25] zero words (all its
    bytes valid, its length a multiple of 4) does not load: the read loop
    faults where the spec has segment 0 hold [100 * 2^25] zero words. *)
Theorem read_program_file_overflow :
  read_program_file (repeat 0 (Z.to_nat (4 * 3355443200))) = Fault Undefined_behaviour.
Proof.
  assert (Hsplit : repeat 0 (Z.to_nat (4 * 3355443200)) =
                   repeat 0 (Z.to_nat (4 * 3355443199)) ++ [0; 0; 0; 0]).
  { replace (4 * 3355443200) with (4 * 3355443199 + 4) by reflexivity.
    rewrite Z2Nat.inj_add by lia. change (Z.to_nat 4) with 4%nat.
    rewrite repeat_app. f_equal. }
  set (k := Z.to_nat 3355443199).
  set (r := repeat 0 (Z.to_nat (4 * 3355443199))).
  assert (Hr : Forall byte_ok r).
  { apply Forall_forall. intros x Hx. apply list_elem_of_In, repeat_spec in Hx.
    subst x. unfold byte_ok. lia. }
  assert (Hlen : length r = (4 * k)%nat).
  { unfold r, k. rewrite repeat_length. rewrite Z2Nat.inj_mul by lia.
    change (Z.to_nat 4) with 4%nat. reflexivity. }
  assert (Hk : Z.of_nat k = 3355443199) by (unfold k; rewrite Z2Nat.id; lia).
  destruct (read_loop_prefix k r [0; 0; 0; 0] [] 0 0 (3 * k + 4) Hr Hlen)
    as (j' & Hj' & Hlt & E); [lia | cbn; lia | rewrite Hk; cbn; lia |].
  assert (Hj25 : j' = 25).
  { destruct (Z.eq_dec j' 25) as [? | Hne]; [assumption|].
    assert (2 ^ j' <= 2 ^ 24) by (apply Z.pow_le_mono_r; lia).
    assert (2 ^ 24 = 16777216) by reflexivity. lia. }
  subst j'. change (100 * 2 ^ 25) with 3355443200 in E.
  change (100 * 2 ^ 0) with 100 in E. rewrite Hk, Z.add_0_l in E.
  unfold read_program_file. rewrite Hsplit. fold r.
  destruct (fgetc (r ++ [0; 0; 0; 0])) as [b f] eqn:Ef. cbn [fst snd fgetc] in E.
  rewrite length_app, Hlen. cbn [length].
  replace (S (4 * k + 4)) with (k + S (3 * k + 4))%nat by lia.
  rewrite E. rewrite read_loop_group by (unfold byte_ok; lia).
  rewrite append_word_overflow. reflexivity.
Qed.

(** * Further properties of the interpreter *)

(** ** Bitpack: bit-level description *)

Lemma Bitpack_getu_spec (word width lsb : Z) :
  0 < width -> 0 <= lsb -> lsb + width <= 64 ->
  Bitpack_getu word width lsb = Z.shiftr word lsb mod 2 ^ width.
Proof.
  intros Hw Hl Hh. unfold Bitpack_getu, shr, shl, u64.
  rewrite (proj2 (Z.eqb_neq (64 - width) 64)) by lia.
  rewrite (proj2 (Z.eqb_neq (64 - (lsb + width)) 64)) by lia.
  apply Z.bits_inj'. intros n Hn.
  rewrite Z.shiftr_spec by lia.
  destruct (Z.lt_ge_cases n width) as [Hlt | Hge].
  - rewrite !Z.mod_pow2_bits_low by lia.
    rewrite Z.shiftl_spec, Z.shiftr_spec by lia. f_equal. lia.
  - rewrite !Z.mod_pow2_bits_high by lia. reflexivity.
Qed.

Lemma Bitpack_fitsu_iff (n width : Z) :
  0 <= width <= 64 -> 0 <= n < 2 ^ 64 ->
  Bitpack_fitsu n width = true <-> n < 2 ^ width.
Proof.
  intros Hw Hn. unfold Bitpack_fitsu, shr.
  destruct (Z.eqb_spec width 64) as [-> | Hne].
  - split; [lia | reflexivity].
  - rewrite Z.eqb_eq, Z.shiftr_div_pow2 by lia.
    assert (0 < 2 ^ width) by (apply Z.pow_pos_nonneg; lia).
    rewrite Z.div_small_iff by lia. lia.
Qed.

(** The word [Bitpack_newu] returns, bit by bit. *)
Definition newu_bit (word width lsb value n : Z) : bool :=
  if n <? lsb then Z.testbit word n
  else if n <? lsb + width then Z.testbit value (n - lsb)
  else if n <? 64 then Z.testbit word n
  else false.

Lemma Bitpack_newu_spec (word width lsb value : Z) :
  0 <= width -> 0 <= lsb -> lsb + width <= 64 -> 0 <= value < 2 ^ width ->
  exists w, Bitpack_newu word width lsb value = Ok w /\
    forall n, 0 <= n -> Z.testbit w n = newu_bit word width lsb value n.
Proof.
  intros Hw Hl Hh Hv.
  assert (Hv64 : 2 ^ width <= 2 ^ 64) by (apply Z.pow_le_mono_r; lia).
  assert (Hfit : Bitpack_fitsu value width = true)
    by (apply Bitpack_fitsu_iff; lia).
  unfold Bitpack_newu. rewrite Hfit.
  rewrite (proj2 (Z.leb_le width 64)), (proj2 (Z.leb_le (lsb + width) 64)) by lia.
  cbn [negb]. eexists. split; [reflexivity|].
  intros n Hn. unfold newu_bit, shl, shr, u64.
  rewrite !Z.lor_spec.
  (* the new part *)
  assert (Hnew : Z.testbit (Z.shiftl value lsb mod 2 ^ 64) n =
                 (lsb <=? n) && (n <? lsb + width) && Z.testbit value (n - lsb)).
  { destruct (Z.lt_ge_cases n 64) as [H64 | H64].
    - rewrite Z.mod_pow2_bits_low, Z.shiftl_spec by lia.
      destruct (Z.leb_spec lsb n) as [Hle | Hgt].
      + destruct (Z.ltb_spec n (lsb + width)) as [Hlt | Hge]; [reflexivity|].
        cbn. rewrite <- (Z.mod_small value (2 ^ width)) by lia.
        apply Z.mod_pow2_bits_high. lia.
      + apply Z.testbit_neg_r. lia.
    - rewrite Z.mod_pow2_bits_high by lia.
      destruct (Z.ltb_spec n (lsb + width)); [lia|].
      rewrite andb_false_r. reflexivity. }
  rewrite Hnew.
  (* the high part *)
  assert (Hhigh : Z.testbit (if lsb + width =? 64 then 0
                    else Z.shiftl (if lsb + width =? 64 then 0
                           else Z.shiftr word (lsb + width)) (lsb + width) mod 2 ^ 64) n =
                  (lsb + width <=? n) && (n <? 64) && Z.testbit word n).
  { destruct (Z.eqb_spec (lsb + width) 64) as [He | Hne].
    - rewrite Z.bits_0. destruct (Z.leb_spec (lsb + width) n); [|reflexivity].
      destruct (Z.ltb_spec n 64); [lia | reflexivity].
    - destruct (Z.lt_ge_cases n 64) as [H64 | H64].
      + rewrite Z.mod_pow2_bits_low by lia.
        destruct (Z.leb_spec (lsb + width) n) as [Hle | Hgt].
        * rewrite Z.shiftl_spec, Z.shiftr_spec by lia.
          destruct (Z.ltb_spec n 64); [|lia]. cbn. f_equal. lia.
        * rewrite Z.shiftl_spec by lia. apply Z.testbit_neg_r. lia.
      + rewrite Z.mod_pow2_bits_high by lia.
        destruct (Z.ltb_spec n 64); [lia|]. rewrite andb_false_r, andb_false_l. reflexivity. }
  rewrite Hhigh.
  (* the low part *)
  assert (Hlow : Z.testbit (if 64 - lsb =? 64 then 0
                   else Z.shiftr (if 64 - lsb =? 64 then 0
                          else Z.shiftl word (64 - lsb) mod 2 ^ 64) (64 - lsb)) n =
                 (n <? lsb) && Z.testbit word n).
  { destruct (Z.eqb_spec (64 - lsb) 64) as [He | Hne].
    - rewrite Z.bits_0. destruct (Z.ltb_spec n lsb); [lia | reflexivity].
    - rewrite Z.shiftr_spec by lia.
      destruct (Z.ltb_spec n lsb) as [Hlt | Hge].
      + rewrite Z.mod_pow2_bits_low, Z.shiftl_spec by lia. cbn. f_equal. lia.
      + rewrite Z.mod_pow2_bits_high by lia. reflexivity. }
  rewrite Hlow.
  destruct (Z.ltb_spec n lsb); destruct (Z.leb_spec lsb n); try lia;
  destruct (Z.ltb_spec n (lsb + width)); destruct (Z.leb_spec (lsb + width) n); try lia;
  destruct (Z.ltb_spec n 64); cbn; rewrite ?orb_false_r, ?andb_true_r; reflexivity.
Qed.

Lemma testbit_small (x k n : Z) :
  0 <= k <= n -> 0 <= x < 2 ^ k -> Z.testbit x n = false.
Proof.
  intros Hn Hx. rewrite <- (Z.mod_small x (2 ^ k)) by lia.
  apply Z.mod_pow2_bits_high. lia.
Qed.


(** Round trip: reading back a field just written with [Bitpack_newu]
    gives the value written. *)
Theorem Bitpack_getu_newu (word width lsb value : Z) :
  0 < width -> 0 <= lsb -> lsb + width <= 64 -> 0 <= value < 2 ^ width ->
  exists w, Bitpack_newu word width lsb value = Ok w /\
    Bitpack_getu w width lsb = value.
Proof.
  intros Hw Hl Hh Hv.
  destruct (Bitpack_newu_spec word width lsb value) as (w & Hnew & Hbits); try lia.
  exists w. split; [exact Hnew|].
  rewrite Bitpack_getu_spec by lia.
  apply Z.bits_inj'. intros n Hn.
  destruct (Z.lt_ge_cases n width) as [Hlt | Hge].
  - rewrite Z.mod_pow2_bits_low, Z.shiftr_spec, Hbits by lia.
    unfold newu_bit.
    destruct (Z.ltb_spec (n + lsb) lsb); [lia|].
    destruct (Z.ltb_spec (n + lsb) (lsb + width)); [|lia]. f_equal. lia.
  - rewrite Z.mod_pow2_bits_high by lia. symmetry. apply (testbit_small _ width); lia.
Qed.


(** Round trip: writing back the value a field holds gives the same
    64-bit word. *)
Theorem Bitpack_newu_getu (word width lsb : Z) :
  0 < width -> 0 <= lsb -> lsb + width <= 64 -> 0 <= word < 2 ^ 64 ->
  Bitpack_newu word width lsb (Bitpack_getu word width lsb) = Ok word.
Proof.
  intros Hw Hl Hh Hword.
  assert (Hr : 0 <= Bitpack_getu word width lsb < 2 ^ width).
  { rewrite Bitpack_getu_spec by lia. apply Z.mod_pos_bound, Z.pow_pos_nonneg; lia. }
  destruct (Bitpack_newu_spec word width lsb (Bitpack_getu word width lsb))
    as (w & Hnew & Hbits); try lia.
  rewrite Hnew. f_equal.
  apply Z.bits_inj'. intros n Hn. rewrite Hbits by lia. unfold newu_bit.
  destruct (Z.ltb_spec n lsb); [reflexivity|].
  destruct (Z.ltb_spec n (lsb + width)).
  - rewrite Bitpack_getu_spec, Z.mod_pow2_bits_low, Z.shiftr_spec by lia.
    f_equal. lia.
  - destruct (Z.ltb_spec n 64); [reflexivity|].
    symmetry. apply (testbit_small _ 64); lia.
Qed.

(** ** Instruction formats *)

(** A three-register instruction: opcode in bits 28-31, registers A, B, C in
    bits 6-8, 3-5 and 0-2. *)
Definition instr (op a b c : Z) : Z := op * 2 ^ 28 + a * 2 ^ 6 + b * 2 ^ 3 + c.

(** A Load Value instruction: opcode 13, register A in bits 25-27, the value
    in bits 0-24. *)
Definition instr_load_value (a v : Z) : Z := 13 * 2 ^ 28 + a * 2 ^ 25 + v.

Lemma getu_const (word width lsb : Z) :
  0 < width -> 0 <= lsb -> lsb + width <= 64 ->
  Bitpack_getu word width lsb = word / 2 ^ lsb mod 2 ^ width.
Proof. intros. rewrite Bitpack_getu_spec, Z.shiftr_div_pow2 by lia. reflexivity. Qed.

(** The dispatch loop decodes a three-register instruction into its
    opcode (bits 28-31) and registers A (bits 6-8), B (bits 3-5) and C
    (bits 0-2). *)
Theorem instr_decode (op a b c : Z) :
  0 <= op < 16 -> 0 <= a < 8 -> 0 <= b < 8 -> 0 <= c < 8 ->
  opcode (instr op a b c) = op /\ Bitpack_getu (instr op a b c) 3 6 = a /\
  Bitpack_getu (instr op a b c) 3 3 = b /\ Bitpack_getu (instr op a b c) 3 0 = c.
Proof.
  intros Hop Ha Hb Hc. unfold opcode, instr.
  rewrite !getu_const by lia.
  assert (E28 : 2 ^ 28 = 268435456) by reflexivity.
  assert (E6 : 2 ^ 6 = 64) by reflexivity. assert (E3 : 2 ^ 3 = 8) by reflexivity.
  assert (E4 : 2 ^ 4 = 16) by reflexivity. assert (E0 : 2 ^ 0 = 1) by reflexivity.
  rewrite E28, E6, E3, E4, E0. repeat split; Z.div_mod_to_equations; lia.
Qed.

(** Opcode 13 takes register A from bits 25-27 and the value from bits
    0-24: it sets [R[A]] to the 25-bit value and moves to the next word. *)
Theorem load_value_step (m : machine) (a v : Z) :
  0 <= a < 8 -> 0 <= v < 2 ^ 25 -> fetch m = Ok (instr_load_value a v) ->
  step m = Ok (Continue (set_pc (set_reg m a v) (u32 (program_counter m + 1)))).
Proof.
  intros Ha Hv Hf.
  assert (E28 : 2 ^ 28 = 268435456) by reflexivity.
  assert (E25 : 2 ^ 25 = 33554432) by reflexivity.
  assert (E4 : 2 ^ 4 = 16) by reflexivity. assert (E3 : 2 ^ 3 = 8) by reflexivity.
  assert (E0 : 2 ^ 0 = 1) by reflexivity.
  assert (Hop : opcode (instr_load_value a v) = 13).
  { unfold opcode, instr_load_value. rewrite getu_const by lia.
    rewrite E28, E4, E25. Z.div_mod_to_equations. lia. }
  assert (HA : Bitpack_getu (instr_load_value a v) 3 25 = a).
  { unfold instr_load_value. rewrite getu_const by lia.
    rewrite E28, E3, E25. Z.div_mod_to_equations. lia. }
  assert (HV : Bitpack_getu (instr_load_value a v) 25 0 = v).
  { unfold instr_load_value. rewrite getu_const by lia.
    rewrite E28, E0, E25. Z.div_mod_to_equations. lia. }
  unfold step. rewrite Hf. cbn [bind]. rewrite Hop. cbn [Z.eqb Pos.eqb].
  rewrite HA, HV. reflexivity.
Qed.




(** ** Offsets at the edge of a segment *)

Lemma seg_length_some (m : machine) (id h : Z) :
  seg_length m id = Some h ->
  exists p rest, segments m !! id = Some p /\ heap m !! p = Some (h :: rest).
Proof.
  unfold seg_length, seg_array. intros E.
  destruct (segments m !! id) as [p|] eqn:Hp; [|discriminate E].
  destruct (heap m !! p) as [[|h' rest]|] eqn:Ha; try discriminate E.
  injection E as <-. eauto.
Qed.

(** A segmented load at offset [0xFFFFFFFF] reads index
    [offset + 1 = 0] after the [uint32_t] wrap: it returns the segment's
    length word. *)
Theorem segmented_load_wraps_to_length (m : machine) (A B C h : Z) :
  seg_length m (reg m B) = Some h -> reg m C = 2 ^ 32 - 1 ->
  segmented_load m A B C = Ok (set_reg m A h).
Proof.
  intros Hl HC. destruct (seg_length_some m (reg m B) h Hl) as (p & rest & Hp & Ha).
  unfold segmented_load, load_word, spine_get, heap_get, arr_get.
  rewrite Hp. cbn [bind]. rewrite Ha. cbn [bind]. rewrite HC. reflexivity.
Qed.

(** A segmented store at offset [0xFFFFFFFF] overwrites the
    segment's length word with [R[C]]. *)
Theorem segmented_store_overwrites_length (m : machine) (A B C h : Z) :
  seg_length m (reg m A) = Some h -> reg m B = 2 ^ 32 - 1 ->
  exists m', segmented_store m A B C = Ok m' /\ seg_length m' (reg m A) = Some (reg m C).
Proof.
  intros Hl HB. destruct (seg_length_some m (reg m A) h Hl) as (p & rest & Hp & Ha).
  unfold segmented_store, store_word, spine_get, heap_get, arr_set.
  rewrite Hp. cbn [bind]. rewrite Ha. cbn [bind]. rewrite HB.
  eexists. split; [reflexivity|].
  unfold seg_length, seg_array. simpl_machine. rewrite Hp, lookup_insert_eq. reflexivity.
Qed.




(** ** Unmap and map together *)

(** The free identifiers form a stack: a map right after an unmap
    hands back the identifier just unmapped, mapped again, with a fresh
    zeroed array; no other segment changes. *)
Theorem unmap_then_map_reuses (m m1 m2 : machine) (id n id' : Z) :
  wf m -> id <> 0 -> mapped m id -> word_ok n ->
  unmap_segment m id = Ok m1 -> map_segment m1 n = Ok (m2, id') ->
  id' = id /\ mapped m2 id /\ seg_array m2 id = Some (n :: repeat 0 (Z.to_nat n)) /\
  (forall j, j <> id -> seg_array m2 j = seg_array m j).
Proof.
  intros Hwf Hid Hmap Hn Hu Hm.
  destruct (unmap_segment_wf m m1 id Hwf Hid Hmap Hu) as (Hwf1 & _ & Hsame & Hpool).
  destruct (map_segment_spec m1 m2 n id' Hwf1 Hn Hm) as (_ & Hnew & Hframe & Hcase).
  rewrite Hpool in Hcase. destruct Hcase as (-> & Hpool2 & _).
  split; [reflexivity|]. split; [|split; [exact Hnew|]].
  - split.
    + unfold seg_array in Hnew. destruct (segments m2 !! id); [eauto | discriminate Hnew].
    + rewrite Hpool2. apply Hmap.
  - intros j Hj. rewrite Hframe by exact Hj. apply Hsame.
Qed.

(** Unmap does not check that its identifier is mapped: after two
    unmaps of the same identifier, the next two maps both return it, and
    the second frees the array the first one installed. *)
Theorem double_unmap_aliases (m m1 m2 m3 m4 : machine) (id n1 n2 i1 i2 : Z) :
  word_ok n1 -> word_ok n2 ->
  unmap_segment m id = Ok m1 -> unmap_segment m1 id = Ok m2 ->
  map_segment m2 n1 = Ok (m3, i1) -> map_segment m3 n2 = Ok (m4, i2) ->
  i1 = id /\ i2 = id /\ segments m3 !! id = Some (next_addr m2) /\
  heap m4 !! next_addr m2 = None.
Proof.
  intros Hn1 Hn2 Hu1 Hu2 Hm3 Hm4.
  destruct (unmap_segment_inv m m1 id Hu1) as (_ & _ & _ & _ & _ & _ & _ & _ & Hp1 & _).
  destruct (unmap_segment_inv m1 m2 id Hu2) as (_ & _ & _ & _ & _ & _ & _ & _ & Hp2 & _).
  destruct (map_segment_inv m2 m3 n1 i1 Hn1 Hm3) as
    (_ & _ & _ & _ & _ & Hnext3 & _ & _ & [(Hnil & _) | (rest & p & Hpool & Hpool' & _ & _ & _ & Hsegs3 & _)]);
    rewrite Hp2, Hp1 in *; [discriminate Hnil|].
  injection Hpool as <- <-.
  destruct (map_segment_inv m3 m4 n2 i2 Hn2 Hm4) as
    (_ & _ & _ & _ & _ & _ & _ & _ & [(Hnil & _) | (rest' & q & Hpool3 & _ & Hq & _ & _ & _ & Hheap4 & _)]);
    rewrite Hpool' in *; [discriminate Hnil|].
  injection Hpool3 as <- <-.
  rewrite Hsegs3, lookup_insert_eq in Hq. injection Hq as <-.
  split; [reflexivity|]. split; [reflexivity|].
  split; [rewrite Hsegs3; apply lookup_insert_eq|].
  rewrite Hheap4. apply lookup_delete_eq.
Qed.

(** Unmap accepts identifier 0: a map that follows returns 0, frees
    the program's array and puts a zeroed segment in its place. *)
Theorem unmap_zero_then_map (m m1 m2 : machine) (n id : Z) :
  wf m -> word_ok n -> unmap_segment m 0 = Ok m1 -> map_segment m1 n = Ok (m2, id) ->
  id = 0 /\ seg_array m2 0 = Some (n :: repeat 0 (Z.to_nat n)) /\
  (forall p, segments m !! 0 = Some p -> heap m2 !! p = None).
Proof.
  intros Hwf Hn Hu Hm.
  destruct (unmap_segment_inv m m1 0 Hu) as
    (_ & _ & _ & _ & Hsegs1 & Hheap1 & Hnext1 & _ & Hp1 & _).
  destruct (map_segment_inv m1 m2 n id Hn Hm) as
    (_ & _ & _ & _ & _ & _ & _ & _ & [(Hnil & _) | (rest & p & Hpool & _ & Hp & _ & _ & Hsegs2 & Hheap2 & _)]);
    rewrite Hp1 in *; [discriminate Hnil|].
  injection Hpool as <- <-. rewrite Hsegs1 in Hp.
  destruct (wf_arrays m Hwf 0 p Hp) as (a & Ha & _).
  assert (Hlt : p < next_addr m) by (apply (wf_fresh m Hwf); rewrite Ha; eauto).
  split; [reflexivity|]. split.
  - unfold seg_array. rewrite Hsegs2, lookup_insert_eq, Hheap2.
    rewrite lookup_delete_ne by (rewrite Hnext1; lia). apply lookup_insert_eq.
  - intros q Hq. rewrite Hp in Hq. injection Hq as <-.
    rewrite Hheap2. apply lookup_delete_eq.
Qed.

(** Unmap frees nothing and changes no array: every load reads what it
    read before, through the unmapped identifier too. *)
Theorem unmap_keeps_contents (m m' : machine) (id : Z) :
  unmap_segment m id = Ok m' ->
  forall j off, load_word m' j off = load_word m j off.
Proof.
  intros Hu j off.
  destruct (unmap_segment_inv m m' id Hu) as (_ & _ & _ & _ & Hsegs & Hheap & _).
  unfold load_word, spine_get, heap_get. rewrite Hsegs, Hheap. reflexivity.
Qed.

(** ** Program files that are empty or end in a partial group *)






(** ** Releasing the machine (free_UM, lines 60-77) *)

(** The loop [for (i = 0; i < num_segments; i++) free(spine[i])], from slot
    [i] with [n] slots to go. *)
Fixpoint free_spine (n : nat) (i : Z) (m : machine) : result machine :=
  match n with
  | O => Ok m
  | S n' =>
      let* p := spine_get m i in
      let* m1 := free m p in
      free_spine n' (i + 1) m1
  end.

(** The spine, the identifier array and the struct are not objects of the
    model's heap: their three [free] calls have no counterpart. *)
Definition free_UM (m : machine) : result machine :=
  free_spine (Z.to_nat (num_segments m)) 0 m.

Lemma free_spine_spec (n : nat) :
  forall (i : Z) (m : machine),
  (forall j, i <= j < i + Z.of_nat n ->
     exists p a, segments m !! j = Some p /\ heap m !! p = Some a) ->
  (forall j j' p, segments m !! j = Some p -> segments m !! j' = Some p -> j = j') ->
  exists m', free_spine n i m = Ok m' /\ segments m' = segments m /\
    (forall j p, i <= j < i + Z.of_nat n -> segments m !! j = Some p -> heap m' !! p = None) /\
    (forall p, (forall j, i <= j < i + Z.of_nat n -> segments m !! j <> Some p) ->
       heap m' !! p = heap m !! p).
Proof.
  induction n as [|n IH]; intros i m Hall Hinj.
  - exists m. split; [reflexivity|]. split; [reflexivity|].
    split; [intros j p Hj; lia | intros p _; reflexivity].
  - destruct (Hall i ltac:(lia)) as (p & a & Hp & Ha).
    set (m1 := set_heap m (delete p (heap m)) (next_addr m)).
    assert (Hstep : free_spine (S n) i m = free_spine n (i + 1) m1).
    { cbn [free_spine]. unfold spine_get, free. rewrite Hp. cbn [bind].
      rewrite Ha. reflexivity. }
    destruct (IH (i + 1) m1) as (m' & Hm' & Hsegs & Hfreed & Hkept).
    + intros j Hj. destruct (Hall j ltac:(lia)) as (q & b & Hq & Hb).
      exists q, b. split; [exact Hq|]. unfold m1. simpl_machine.
      rewrite lookup_delete_ne; [exact Hb|].
      intros <-. pose proof (Hinj i j p Hp Hq). lia.
    + exact Hinj.
    + exists m'. rewrite Hstep. split; [exact Hm'|]. split; [exact Hsegs|]. split.
      * intros j q Hj Hq. destruct (Z.eq_dec j i) as [-> | Hne].
        -- rewrite Hp in Hq. injection Hq as <-.
           rewrite Hkept; [unfold m1; simpl_machine; apply lookup_delete_eq|].
           intros j' Hj1 Hj2. pose proof (Hinj i j' p Hp Hj2). lia.
        -- apply (Hfreed j); [lia | exact Hq].
      * intros q Hq. rewrite Hkept by (intros j Hj; apply Hq; lia).
        unfold m1. simpl_machine. apply lookup_delete_ne.
        intros <-. apply (Hq i); [lia | exact Hp].
Qed.

(** [free_UM] frees the arrays of the spine slots below [num_segments],
    and only those: an array in a slot at or above [num_segments] (left
    there when identifiers are unmapped at exit) stays allocated. *)
Theorem free_UM_frees_low_slots (m : machine) :
  wf m ->
  exists m', free_UM m = Ok m' /\
    (forall id p, segments m !! id = Some p -> heap m' !! p = None <-> id < num_segments m) /\
    (forall p, (forall id, segments m !! id <> Some p) -> heap m' !! p = heap m !! p).
Proof.
  intros Hwf.
  pose proof (wf_num m Hwf) as Hnum.
  pose proof (wf_dom m Hwf) as Hdom.
  assert (Hslots : num_segments m <= slots m) by (unfold slots; lia).
  destruct (free_spine_spec (Z.to_nat (num_segments m)) 0 m) as (m' & Hm' & _ & Hfreed & Hkept).
  - intros j Hj. destruct (proj2 (Hdom j) ltac:(lia)) as [p Hp].
    destruct (wf_arrays m Hwf j p Hp) as (a & Ha & _). eauto.
  - apply (wf_inj m Hwf).
  - exists m'. split; [exact Hm'|]. split.
    + intros id p Hp. assert (Hid : 0 <= id < slots m) by (apply Hdom; rewrite Hp; eauto).
      split.
      * intros Hnone. destruct (Z.lt_ge_cases id (num_segments m)) as [Hlt | Hge]; [exact Hlt|].
        exfalso. destruct (wf_arrays m Hwf id p Hp) as (a & Ha & _).
        rewrite Hkept in Hnone; [congruence|].
        intros j Hj Hj'. pose proof (wf_inj m Hwf j id p Hj' Hp). lia.
      * intros Hlt. apply (Hfreed id); [lia | exact Hp].
    + intros p Hp. apply Hkept. intros j _. apply Hp.
Qed.

(** ** The machine a program file loads into *)

Lemma be_words_length (fp : list Z) (k : nat) :
  length fp = (4 * k)%nat -> length (be_words fp) = k.
Proof.
  revert fp. induction k as [|k IH]; intros fp Hlen.
  - destruct fp; [reflexivity | discriminate].
  - destruct fp as [|b0 [|b1 [|b2 [|b3 r]]]]; cbn [length] in Hlen; try lia.
    cbn [be_words length]. f_equal. apply IH. lia.
Qed.

Lemma be_words_ok (fp : list Z) : Forall byte_ok fp -> Forall word_ok (be_words fp).
Proof.
  assert (Hn : forall n fp, (length fp <= n)%nat -> Forall byte_ok fp ->
                 Forall word_ok (be_words fp)).
  { induction n as [|n IH]; intros l Hl H.
    - destruct l; [constructor | cbn in Hl; lia].
    - destruct l as [|b0 [|b1 [|b2 [|b3 r]]]]; cbn [be_words]; [constructor..|].
      apply Forall_cons in H as [H0 H]. apply Forall_cons in H as [H1 H].
      apply Forall_cons in H as [H2 H]. apply Forall_cons in H as [H3 H].
      constructor.
      + unfold word_ok. rewrite be_word_sum by assumption. unfold byte_ok in *. lia.
      + apply IH; [cbn in Hl; lia | exact H]. }
  intros H. apply (Hn (length fp)); [lia | exact H].
Qed.

(** A program file of whole words, fewer than [100 * 2^25] of them,
    loads into a machine that satisfies the representation invariant. *)
Theorem read_program_file_wf (fp stdin : list Z) (k : nat) :
  Forall byte_ok fp -> length fp = (4 * k)%nat -> Z.of_nat k < 100 * 2 ^ 25 ->
  Forall byte_ok stdin ->
  exists m, read_program_file fp = Ok m /\ wf (set_io m stdin []).
Proof.
  intros Hfp Hlen Hk Hin.
  exists (new_UM 0 {[0 := Z.of_nat k :: be_words fp]} 1).
  split; [apply (read_program_file_ok fp k Hfp Hlen Hk)|].
  pose proof (be_words_length fp k Hlen) as Hl.
  assert (E : set_io (new_UM 0 {[0 := Z.of_nat k :: be_words fp]} 1) stdin [] =
              machine_of (be_words fp) stdin) by (unfold machine_of; rewrite Hl; reflexivity).
  rewrite E. apply wf_machine_of.
  - apply be_words_ok. exact Hfp.
  - rewrite Hl. cbn in Hk |- *. lia.
  - exact Hin.
Qed.

(** *** Concrete instances of the properties above *)

Lemma bytes_ok_check (l : list Z) :
  forallb (fun b => (0 <=? b) && (b <? 256)) l = true -> Forall byte_ok l.
Proof.
  induction l as [|x l IH]; cbn [forallb]; intros H; [constructor|].
  apply andb_true_iff in H as [Hx Hl]. apply andb_true_iff in Hx as [H0 H1].
  constructor; [unfold byte_ok; apply Z.leb_le in H0; apply Z.ltb_lt in H1; lia | auto].
Qed.


Lemma Bitpack_getu_newu_witness :
  (0 < 8 /\ 0 <= 24 /\ 24 + 8 <= 64 /\ 0 <= 0xAB < 2 ^ 8) /\
  exists w, Bitpack_newu 0x12345678 8 24 0xAB = Ok w /\ Bitpack_getu w 8 24 = 0xAB.
Proof.
  split; [split; [lia | split; [lia | split; [lia | cbn; lia]]]|].
  apply (Bitpack_getu_newu 0x12345678 8 24 0xAB); [lia | lia | lia | cbn; lia].
Defined.


Lemma Bitpack_newu_getu_witness :
  (0 < 4 /\ 0 <= 28 /\ 28 + 4 <= 64 /\ 0 <= 0xD2000041 < 2 ^ 64) /\
  Bitpack_newu 0xD2000041 4 28 (Bitpack_getu 0xD2000041 4 28) = Ok 0xD2000041.
Proof.
  split; [repeat split; cbn; lia|].
  apply Bitpack_newu_getu; cbn; lia.
Defined.

Lemma instr_decode_witness :
  (0 <= 3 < 16 /\ 0 <= 1 < 8 /\ 0 <= 2 < 8 /\ 0 <= 7 < 8) /\
  (opcode (instr 3 1 2 7) = 3 /\ Bitpack_getu (instr 3 1 2 7) 3 6 = 1 /\
   Bitpack_getu (instr 3 1 2 7) 3 3 = 2 /\ Bitpack_getu (instr 3 1 2 7) 3 0 = 7).
Proof.
  split; [lia|]. apply instr_decode; lia.
Defined.

Definition machine_lv : machine := machine_of [instr_load_value 3 42; 0x70000000] [].

Lemma load_value_step_witness :
  (0 <= 3 < 8 /\ 0 <= 42 < 2 ^ 25 /\ fetch machine_lv = Ok (instr_load_value 3 42)) /\
  step machine_lv = Ok (Continue (set_pc (set_reg machine_lv 3 42)
                                     (u32 (program_counter machine_lv + 1)))).
Proof.
  split; [split; [lia | split; [cbn; lia | reflexivity]]|].
  apply load_value_step; [lia | cbn; lia | reflexivity].
Defined.



Definition machine_wrap : machine :=
  set_reg (machine_of [0x70000000] []) 1 (2 ^ 32 - 1).

Lemma segmented_load_wraps_to_length_witness :
  (seg_length machine_wrap (reg machine_wrap 0) = Some 1 /\ reg machine_wrap 1 = 2 ^ 32 - 1) /\
  segmented_load machine_wrap 2 0 1 = Ok (set_reg machine_wrap 2 1).
Proof.
  split; [split; reflexivity|].
  apply segmented_load_wraps_to_length; reflexivity.
Defined.

Lemma segmented_store_overwrites_length_witness :
  (seg_length machine_wrap (reg machine_wrap 0) = Some 1 /\ reg machine_wrap 1 = 2 ^ 32 - 1) /\
  exists m', segmented_store machine_wrap 0 1 1 = Ok m' /\
    seg_length m' (reg machine_wrap 0) = Some (reg machine_wrap 1).
Proof.
  split; [split; reflexivity|].
  apply (segmented_store_overwrites_length machine_wrap 0 1 1 1); reflexivity.
Defined.

Lemma wf_halt : wf (machine_of [0x70000000] []).
Proof.
  apply wf_machine_of; [apply words_ok_check; reflexivity | cbn; lia | constructor].
Qed.



Definition unmapped_1 : machine :=
  match unmap_segment machine_load 1 with Ok m => m | Fault _ => machine_load end.

Definition remapped_1 : machine :=
  match map_segment unmapped_1 0 with Ok (m, _) => m | Fault _ => machine_load end.

Lemma mapped_load_1 : mapped machine_load 1.
Proof. split; [eexists; reflexivity | intros H; inversion H]. Qed.

Lemma unmap_then_map_reuses_witness :
  (wf machine_load /\ 1 <> 0 /\ mapped machine_load 1 /\ word_ok 0 /\
   unmap_segment machine_load 1 = Ok unmapped_1 /\
   map_segment unmapped_1 0 = Ok (remapped_1, 1)) /\
  (1 = 1 /\ mapped remapped_1 1 /\ seg_array remapped_1 1 = Some (0 :: repeat 0 (Z.to_nat 0)) /\
   (forall j, j <> 1 -> seg_array remapped_1 j = seg_array machine_load j)).
Proof.
  assert (Hn : word_ok 0) by (unfold word_ok; lia).
  split; [split; [exact wf_machine_load | split; [lia | split; [exact mapped_load_1 |
    split; [exact Hn | split; reflexivity]]]]|].
  apply (unmap_then_map_reuses machine_load unmapped_1 remapped_1 1 0 1);
    [exact wf_machine_load | lia | exact mapped_load_1 | exact Hn | reflexivity | reflexivity].
Defined.

Definition unmapped_1_twice : machine :=
  match unmap_segment unmapped_1 1 with Ok m => m | Fault _ => machine_load end.

Definition remapped_once : machine :=
  match map_segment unmapped_1_twice 0 with Ok (m, _) => m | Fault _ => machine_load end.

Definition remapped_twice : machine :=
  match map_segment remapped_once 5 with Ok (m, _) => m | Fault _ => machine_load end.

Lemma double_unmap_aliases_witness :
  (word_ok 0 /\ word_ok 5 /\ unmap_segment machine_load 1 = Ok unmapped_1 /\
   unmap_segment unmapped_1 1 = Ok unmapped_1_twice /\
   map_segment unmapped_1_twice 0 = Ok (remapped_once, 1) /\
   map_segment remapped_once 5 = Ok (remapped_twice, 1)) /\
  (1 = 1 /\ 1 = 1 /\ segments remapped_once !! 1 = Some (next_addr unmapped_1_twice) /\
   heap remapped_twice !! next_addr unmapped_1_twice = None).
Proof.
  split; [split; [unfold word_ok; lia | split; [unfold word_ok; lia | repeat split; reflexivity]]|].
  apply (double_unmap_aliases machine_load unmapped_1 unmapped_1_twice remapped_once
           remapped_twice 1 0 5 1 1); [unfold word_ok; lia | unfold word_ok; lia | reflexivity..].
Defined.

Definition unmapped_0 : machine :=
  match unmap_segment (machine_of [0x70000000] []) 0 with Ok m => m | Fault _ => machine_load end.

Definition remapped_0 : machine :=
  match map_segment unmapped_0 2 with Ok (m, _) => m | Fault _ => machine_load end.

Lemma unmap_zero_then_map_witness :
  (wf (machine_of [0x70000000] []) /\ word_ok 2 /\
   unmap_segment (machine_of [0x70000000] []) 0 = Ok unmapped_0 /\
   map_segment unmapped_0 2 = Ok (remapped_0, 0)) /\
  (0 = 0 /\ seg_array remapped_0 0 = Some (2 :: repeat 0 (Z.to_nat 2)) /\
   (forall p, segments (machine_of [0x70000000] []) !! 0 = Some p -> heap remapped_0 !! p = None)).
Proof.
  split; [split; [exact wf_halt | split; [unfold word_ok; lia | split; reflexivity]]|].
  apply (unmap_zero_then_map _ unmapped_0 remapped_0 2 0);
    [exact wf_halt | unfold word_ok; lia | reflexivity | reflexivity].
Defined.

Lemma unmap_keeps_contents_witness :
  unmap_segment machine_load 1 = Ok unmapped_1 /\
  forall j off, load_word unmapped_1 j off = load_word machine_load j off.
Proof.
  split; [reflexivity|]. apply (unmap_keeps_contents machine_load unmapped_1 1). reflexivity.
Defined.


Lemma free_UM_frees_low_slots_witness :
  wf machine_load /\
  exists m', free_UM machine_load = Ok m' /\
    (forall id p, segments machine_load !! id = Some p ->
       heap m' !! p = None <-> id < num_segments machine_load) /\
    (forall p, (forall id, segments machine_load !! id <> Some p) ->
       heap m' !! p = heap machine_load !! p).
Proof.
  split; [exact wf_machine_load|]. apply free_UM_frees_low_slots. exact wf_machine_load.
Defined.

Lemma read_program_file_wf_witness :
  (Forall byte_ok (program_file [0x70000000]) /\
   length (program_file [0x70000000]) = (4 * 1)%nat /\ Z.of_nat 1 < 100 * 2 ^ 25 /\
   Forall byte_ok [0x41]) /\
  exists m, read_program_file (program_file [0x70000000]) = Ok m /\ wf (set_io m [0x41] []).
Proof.
  assert (Hb : Forall byte_ok (program_file [0x70000000]))
    by (apply bytes_ok_check; reflexivity).
  assert (Hi : Forall byte_ok [0x41]) by (apply bytes_ok_check; reflexivity).
  split; [split; [exact Hb | split; [reflexivity | split; [cbn; lia | exact Hi]]]|].
  apply (read_program_file_wf _ _ 1); [exact Hb | reflexivity | cbn; lia | exact Hi].
Defined.
